(** * jeopardy.js: the category/clue acquisition pipeline and the per-cell
    reveal state machine

    A shallow embedding of [src/jeopardy.js].  The global [categories] array,
    the page elements the script touches and the number of [Math.random]
    calls made so far form an explicit world state; the two remote endpoints
    and [Math.random] are oracles of the environment.  A function of the
    script becomes a computation over that world which either returns or
    throws.  The handlers of the page give way at each [await]: a run of the
    event loop dispatches clicks and answers one after the other, and a start
    that is suspended stays so until its request is answered. *)

From Stdlib Require Import Ascii DecimalString DecimalNat DecimalZ.
From stdpp Require Import gmap strings list fin_maps.

Local Open Scope string_scope.
Local Open Scope list_scope.

(** ** JavaScript values *)

(** A safe integer: an integer of magnitude below 2^53, which a Number holds
    exactly and which [ToString] prints in full. *)
Record safe_integer : Type := SafeInteger {
  integer : Z;
  integer_safe : (Z.abs integer <? 2 ^ 53)%Z = true
}.

Definition safe_of_Z (z : Z) : option safe_integer :=
  match (Z.abs z <? 2 ^ 53)%Z as b
        return (Z.abs z <? 2 ^ 53)%Z = b -> option safe_integer with
  | true => fun H => Some (SafeInteger z H)
  | false => fun _ => None
  end eq_refl.

Declare Scope safe_scope.
Delimit Scope safe_scope with safe.
Bind Scope safe_scope with safe_integer.
Number Notation safe_integer safe_of_Z integer : safe_scope.

#[global] Instance safe_integer_eq_dec : EqDecision safe_integer.
Proof.
  intros [a Ha] [b Hb]. destruct (decide (a = b)) as [->|Hne].
  - left. f_equal. apply proof_irrel.
  - right. congruence.
Defined.

(** The values a JSON response can carry, as far as the script looks at them.
    Numbers are the safe integers; a nested object is opaque, and arrays
    inside a record are left out. *)
Inductive jsval : Type :=
  | VUndefined
  | VNull
  | VBool (b : bool)
  | VNum (n : safe_integer)
  | VStr (s : string)
  | VObject.

#[global] Instance jsval_eq_dec : EqDecision jsval.
Proof. solve_decision. Defined.

(** An object is a finite map from property names to values. *)
Abbreviation jsobj := (gmap string jsval).

(** [o.k]: a missing property reads as [undefined]. *)
Definition get_prop (o : jsobj) (k : string) : jsval :=
  default VUndefined (o !! k).

(** [ToString], as a template literal [`${v}`] applies it. *)
Definition ToString (v : jsval) : string :=
  match v with
  | VUndefined => "undefined"
  | VNull => "null"
  | VBool true => "true"
  | VBool false => "false"
  | VNum n => NilZero.string_of_int (Z.to_int (integer n))
  | VStr s => s
  | VObject => "[object Object]"
  end.

(** [ToBoolean], as [if (v)] applies it. *)
Definition truthy (v : jsval) : bool :=
  match v with
  | VUndefined | VNull => false
  | VBool b => b
  | VNum n => negb (integer n =? 0)%Z
  | VStr s => negb (String.eqb s "")
  | VObject => true
  end.

(** [v == s] for a string literal [s] that is not numeric: only the string
    itself is loosely equal to it. *)
Definition loose_eq_str (v : jsval) (s : string) : bool :=
  match v with
  | VStr s' => String.eqb s' s
  | _ => false
  end.

(** ** Strings *)

(** [s.slice(0, 1)] *)
Definition slice_0_1 (s : string) : string :=
  match s with
  | EmptyString => ""
  | String c _ => String c ""
  end.

(** [s.slice(n)] *)
Fixpoint slice_from (n : nat) (s : string) : string :=
  match n, s with
  | O, _ => s
  | S n', EmptyString => ""
  | S n', String _ s' => slice_from n' s'
  end.

(** [s.replace(c, "")] for a pattern that is the one-character string [c]:
    a string pattern replaces the first occurrence only. *)
Fixpoint replace_first (c : Ascii.ascii) (s : string) : string :=
  match s with
  | EmptyString => ""
  | String a s' => if Ascii.eqb a c then s' else String a (replace_first c s')
  end.

(** The text with every occurrence of [c] removed, as the specification
    words the stripping of escape markers. *)
Fixpoint strip_all (c : Ascii.ascii) (s : string) : string :=
  match s with
  | EmptyString => ""
  | String a s' => if Ascii.eqb a c then strip_all c s' else String a (strip_all c s')
  end.

Fixpoint occurs (c : Ascii.ascii) (s : string) : bool :=
  match s with
  | EmptyString => false
  | String a s' => Ascii.eqb a c || occurs c s'
  end.

Definition backslash : Ascii.ascii := Ascii.ascii_of_nat 92.

(** The decimal numeral of a natural number, [`${n}`]. *)
Definition decimal (n : nat) : string := NilZero.string_of_uint (Nat.to_uint n).

(** ** Arrays *)

(** A property key is an array index when it is the canonical decimal numeral
    of a number.  (Indices from 2^32 - 1 on are ordinary property names, which
    no array of the script has: they read as [undefined] like an index past
    the end.) *)
Definition array_index (key : string) : option nat :=
  match NilZero.uint_of_string key with
  | Some d =>
      let n := Nat.of_uint d in
      if String.eqb (decimal n) key then Some n else None
  | None => None
  end.

(** The named properties every array has: its [length] and what it inherits
    from [Array.prototype] and [Object.prototype]. *)
Definition array_members : list string :=
  [ "length"; "at"; "concat"; "constructor"; "copyWithin"; "entries"; "every";
    "fill"; "filter"; "find"; "findIndex"; "findLast"; "findLastIndex";
    "flat"; "flatMap"; "forEach"; "includes"; "indexOf"; "join"; "keys";
    "lastIndexOf"; "map"; "pop"; "push"; "reduce"; "reduceRight"; "reverse";
    "shift"; "slice"; "some"; "sort"; "splice"; "toLocaleString";
    "toReversed"; "toSorted"; "toSpliced"; "toString"; "unshift"; "values";
    "with"; "hasOwnProperty"; "isPrototypeOf"; "propertyIsEnumerable";
    "valueOf"; "__defineGetter__"; "__defineSetter__"; "__lookupGetter__";
    "__lookupSetter__"; "__proto__" ].

(** The result of [arr[key]]. *)
Inductive member (A : Type) : Type :=
  | ElementAt (i : nat) (a : A)   (* the element at index [i] *)
  | Undefined                   (* no such property *)
  | Builtin.                    (* [length] or an inherited member *)
Arguments ElementAt {A} i a.
Arguments Undefined {A}.
Arguments Builtin {A}.

Definition array_get {A : Type} (arr : list A) (key : string) : member A :=
  match array_index key with
  | Some i => match arr !! i with Some a => ElementAt i a | None => Undefined end
  | None => if bool_decide (key ∈ array_members) then Builtin else Undefined
  end.

(** [arr.splice(start, 1)] for [start >= 0]: the element at [start] is
    removed; past the end nothing is. *)
Definition splice1 {A : Type} (start : nat) (arr : list A) : list A :=
  take start arr ++ drop (S start) arr.

(** ** Math.random *)

(** A double of [[0, 1)]: every such Number is [m * 2^-(53 + s)] for a
    significand [m] below 2^53 and an [s] of at most 1021.  The two fields
    are read as such a pair, the first modulo 2^53 and the second capped, so
    that every value of the record is a double of [[0, 1)] and every double of
    [[0, 1)] is a value of the record. *)
Record unit_interval : Type := UnitInterval { mantissa : N; scale : N }.

Definition significand (x : unit_interval) : N := (mantissa x mod 2 ^ 53)%N.

Definition exponent (x : unit_interval) : N := (53 + N.min (scale x) 1021)%N.

(** The nearest integer with at most 53 significant bits, ties to the even
    one: the rounding of a double product, on the scaled integers. *)
Definition round53 (p : N) : N :=
  let l := N.log2 p in
  if (l <? 53)%N then p
  else
    let s := (l - 52)%N in
    let q := (p / 2 ^ s)%N in
    let r := (p mod 2 ^ s)%N in
    let half := (2 ^ (s - 1))%N in
    let q' :=
      if (r <? half)%N then q
      else if (half <? r)%N then (q + 1)%N
      else if N.even q then q else (q + 1)%N in
    (q' * 2 ^ s)%N.

(** [Math.floor(x * n)] for an integer [n] that a double holds exactly (a
    length, or 20000): the product of the two doubles is the exact product
    [significand * n * 2^-exponent] rounded to a double, and the floor of
    that is taken. *)
Definition floor_scaled (x : unit_interval) (n : N) : N :=
  (round53 (significand x * n) / 2 ^ exponent x)%N.

(** [Math.floor(x * arr.length)], as an index into an array of [n]
    elements. *)
Definition pick (x : unit_interval) (n : nat) : nat :=
  N.to_nat (floor_scaled x (N.of_nat n)).

(** The exact product [x * n] lies between [i] and [i + 1] with the
    2^53-th part of the product to spare at either end:
    [i <= x * n * (1 - 2^-53)] and [x * n * (1 + 2^-53) < i + 1]. *)
Definition well_inside (x : unit_interval) (n i : nat) : Prop :=
  (N.of_nat i * 2 ^ exponent x * 2 ^ 53
     <= significand x * N.of_nat n * (2 ^ 53 - 1) /\
   significand x * N.of_nat n * (2 ^ 53 + 1)
     < (N.of_nat i + 1) * 2 ^ exponent x * 2 ^ 53)%N.

(** The exact product [x * n] lies between [i] and [i + 1] but for the
    2^53-th part of the product at either end:
    [i <= x * n * (1 + 2^-53)] and [x * n * (1 - 2^-53) < i + 1]. *)
Definition about_inside (x : unit_interval) (n i : nat) : Prop :=
  (N.of_nat i * 2 ^ exponent x * 2 ^ 53
     <= significand x * N.of_nat n * (2 ^ 53 + 1) /\
   significand x * N.of_nat n * (2 ^ 53 - 1)
     < (N.of_nat i + 1) * 2 ^ exponent x * 2 ^ 53)%N.

(** A double close to the middle of [[i/n, (i+1)/n)]. *)
Definition middle_double (n i : nat) : unit_interval :=
  UnitInterval (N.of_nat (2 * i + 1) * 2 ^ 52 / N.of_nat n) 0.

(** ** The world of the script *)

(** [{ title: catTitle, clues: clueArray }] *)
Record category : Type := Category { title : jsval; clues : list jsobj }.

(** A table cell, with the inline style properties the script sets.  The
    text of a cell stands for both its [innerText] and its [innerHTML]. *)
Record element : Type := Td {
  el_id : string;
  innerHTML : string;
  fontSize : string;
  color : string;
  webkitTextStroke : string
}.

Record page : Type := Page {
  thead : list (list string);     (* header rows, each the texts of its cells *)
  tbody : list (list element);    (* body rows *)
  jeopardy_shown : bool;
  spinner_shown : bool;
  start_text : string
}.

Record world : Type := World {
  categories : list category;             (* [let categories = []] *)
  document : page;
  member_showing : gmap string jsval;     (* a [showing] stored on an inherited array member *)
  rand_calls : nat                        (* calls of [Math.random] so far *)
}.

Definition set_categories (cs : list category) (w : world) : world :=
  World cs (document w) (member_showing w) (rand_calls w).

Definition set_document (d : page) (w : world) : world :=
  World (categories w) d (member_showing w) (rand_calls w).

(** The errors of the specification's taxonomy and the run-time [TypeError]
    of JavaScript.  The script itself has no [throw]: a [TypeError] comes from
    reading a property of [undefined], a [TransportError] is the rejection of
    an [axios.get]. *)
Inductive error : Type :=
  | TypeError
  | TransportError
  | InsufficientCategoriesError
  | IndexError.

#[global] Instance error_eq_dec : EqDecision error.
Proof. solve_decision. Defined.

(** A call returns, throws, or is cut off when a loop runs out of fuel. *)
Inductive outcome (A : Type) : Type :=
  | Ok (a : A)
  | Throw (e : error)
  | Diverge.
Arguments Ok {A} a.
Arguments Throw {A} e.
Arguments Diverge {A}.

(** Effects done before a throw stay done: the world is returned in every
    case. *)
Definition M (A : Type) : Type := world -> outcome A * world.

Definition ret {A : Type} (a : A) : M A := fun w => (Ok a, w).

Definition throw {A : Type} (e : error) : M A := fun w => (Throw e, w).

Definition bind {A B : Type} (m : M A) (k : A -> M B) : M B :=
  fun w =>
    match m w with
    | (Ok a, w') => k a w'
    | (Throw e, w') => (Throw e, w')
    | (Diverge, w') => (Diverge, w')
    end.

Notation "'let*' x ':=' m 'in' k" := (bind m (fun x => k))
  (at level 10, x pattern, m at level 100, k at level 200).
Notation "m ';;;' k" := (bind m (fun _ => k))
  (at level 100, k at level 200, right associativity).

Definition modify (f : world -> world) : M unit := fun w => (Ok tt, f w).

(** The environment of a run: the [n]-th call of [Math.random] and the two
    endpoints of the remote catalogue ([None]: the request fails). *)
Record environment : Type := Environment {
  Math_random : nat -> unit_interval;
  api_categories : nat -> N -> option (list jsobj);     (* count, offset *)
  api_clues : string -> option (list jsobj)             (* category id, as in the URL *)
}.

(** ** The script *)

Section Script.

Variable env : environment.

(** [Math.floor(Math.random() * n)] *)
Definition random_below (n : N) : M N :=
  fun w =>
    (Ok (floor_scaled (Math_random env (rand_calls w)) n),
     World (categories w) (document w) (member_showing w) (S (rand_calls w))).

(** [getCategoryIds(numCategories)] *)
Definition getCategoryIds (numCategories : nat) : M (list jsobj) :=
  let* random := random_below 20000 in
  match api_categories env numCategories random with
  | Some data => ret data
  | None => throw TransportError
  end.

(** One pass through the body of the [while] of [getCategory]. *)
Definition drop_random_clue (data : list jsobj) : M (list jsobj) :=
  let* random := random_below (N.of_nat (length data)) in
  ret (splice1 (N.to_nat random) data).

(** [while (category.data.length > 5) { ... }] *)
Fixpoint reduce_clues (fuel : nat) (data : list jsobj) : M (list jsobj) :=
  if (5 <? length data)%nat then
    match fuel with
    | O => fun w => (Diverge, w)
    | S fuel' =>
        let* data' := drop_random_clue data in
        reduce_clues fuel' data'
    end
  else ret data.

(** [{ question: `${c.question}`, answer: `${c.answer}` }] *)
Definition prepare_clue (c : jsobj) : jsobj :=
  <["question" := VStr (ToString (get_prop c "question"))]>
    (<["answer" := VStr (ToString (get_prop c "answer"))]> ∅).

(** The [for] loop of [getCategory]: [category.data[i]] for [i] from 0 to 4,
    where reading a property of a missing element throws. *)
Fixpoint fill_clues (n i : nat) (data clueArray : list jsobj) : M (list jsobj) :=
  match n with
  | O => ret clueArray
  | S n' =>
      match data !! i with
      | Some c => fill_clues n' (S i) data (clueArray ++ [prepare_clue c])
      | None => throw TypeError
      end
  end.

(** [getCategory(catTitle, catId)]: [None] is the [false] of a rejected
    category.  The loop gets as many passes as the response has clues. *)
Definition getCategory (catTitle catId : jsval) : M (option category) :=
  match api_clues env (ToString catId) with
  | None => throw TransportError
  | Some data =>
      if (length data <? 5)%nat then ret None
      else
        let* data' := reduce_clues (length data) data in
        let* clueArray := fill_clues 5 0 data' [] in
        ret (Some (Category catTitle clueArray))
  end.

(** How a value shows as the text of an element ([null] is the empty
    text). *)
Definition dom_string (v : jsval) : string :=
  match v with
  | VNull => ""
  | _ => ToString v
  end.

(** The header cells of [fillTable]: [categories[i].title] for [i] from 0 to
    5. *)
Fixpoint header_cells (n i : nat) (cs : list category) : option (list string) :=
  match n with
  | O => Some []
  | S n' =>
      match cs !! i with
      | Some c => cons (dom_string (title c)) <$> header_cells n' (S i) cs
      | None => None
      end
  end.

(** The cell of column [n] in row [i]. *)
Definition cell_id (n i : nat) : string := decimal n +:+ "-" +:+ decimal i.

Definition new_cell (n i : nat) : element :=
  Td (cell_id n i) ("$" +:+ decimal (i + 1) +:+ "00") "" "" "".

Definition body_row (i : nat) : list element :=
  (fun n => new_cell n i) <$> seq 0 6.

(** [fillTable()] *)
Definition fillTable : M unit :=
  fun w =>
    match header_cells 6 0 (categories w) with
    | None => (Throw TypeError, w)
    | Some headerRow =>
        let d := document w in
        (Ok tt,
         set_document (Page (thead d ++ [headerRow])
                            (tbody d ++ (body_row <$> seq 0 5))
                            (jeopardy_shown d) (spinner_shown d) (start_text d)) w)
    end.

(** [showLoadingView()] *)
Definition showLoadingView : M unit :=
  modify (fun w =>
    World [] (Page [] [] false true "Loading") (member_showing w) (rand_calls w)).

(** [hideLoadingView()] *)
Definition hideLoadingView : M unit :=
  modify (fun w =>
    set_document
      (Page (thead (document w)) (tbody (document w)) true false "New Game") w).

(** The [while] of [setupAndStart], on the candidates from index [i] on:
    [categoryResponse[i]] past the end is [undefined], and reading its
    [title] throws. *)
Fixpoint acquire (candidates : list jsobj) : M unit :=
  fun w =>
    if (length (categories w) <? 6)%nat then
      match candidates with
      | [] => (Throw TypeError, w)
      | c :: rest =>
          (let* newCategory := getCategory (get_prop c "title") (get_prop c "id") in
           match newCategory with
           | Some cat => modify (fun w' => set_categories (categories w' ++ [cat]) w')
           | None => ret tt
           end;;;
           acquire rest) w
      end
    else (Ok tt, w).

(** [setupAndStart()], run from its call to its end with no other handler
    in between: the script gives way at each [await], and [run] below lets
    other handlers in there; [isolated_start] relates the two.  [fillTable] is
    [async] and not awaited: what it throws rejects a promise nobody holds. *)
Definition setupAndStart : M unit :=
  let* categoryResponse := getCategoryIds 18 in
  acquire categoryResponse;;;
  fun w => (Ok tt, snd (fillTable w)).

(** The click handler of [#start], run from the click to its end with no
    other handler in between. *)
Definition start_click : M unit :=
  showLoadingView;;;
  setupAndStart;;;
  hideLoadingView.

(** [clue.showing = v] for the clue at [clues[k]] of [categories[c]]. *)
Definition set_showing (c k : nat) (v : jsval) (w : world) : world :=
  set_categories
    (alter (fun cat => Category (title cat) (alter (insert "showing" v) k (clues cat)))
           c (categories w))
    w.

(** [handleClick(target)].  The call writes to the target it is given: the
    target is returned as the call leaves it, and the handler that made the
    call, [click_cell] below, holds the cell of the page that the target
    is. *)
Definition handleClick (target : element) : M element :=
  fun w =>
    let cat := slice_0_1 (el_id target) in
    let clu := slice_from 2 (el_id target) in
    match array_get (categories w) cat with
    | ElementAt c category =>
        match array_get (clues category) clu with
        | ElementAt k clue =>
            if truthy (get_prop clue "showing") then
              if loose_eq_str (get_prop clue "showing") "question" then
                match get_prop clue "answer" with
                | VStr answer =>
                    (Ok (Td (el_id target) (replace_first backslash answer)
                            "1.5vh" (color target) (webkitTextStroke target)),
                     set_showing c k (VStr "answer") w)
                | _ => (Throw TypeError, w)
                end
              else (Ok target, w)
            else
              (Ok (Td (el_id target) (dom_string (get_prop clue "question"))
                      "1vh" "white" "0"),
               set_showing c k (VStr "question") w)
        | Undefined => (Throw TypeError, w)
        | Builtin =>
            (* [clue] is a number ([length]) or a built-in function or object:
               it has no [question] and no [answer] *)
            let showing :=
              if String.eqb clu "length" then VUndefined
              else default VUndefined (member_showing w !! clu) in
            if truthy showing then
              if loose_eq_str showing "question" then (Throw TypeError, w)
              else (Ok target, w)
            else
              (Ok (Td (el_id target) "undefined" "1vh" "white" "0"),
               if String.eqb clu "length" then w
               else World (categories w) (document w)
                          (<[clu := VStr "question"]> (member_showing w))
                          (rand_calls w))
        end
    | Undefined => (Throw TypeError, w)
    | Builtin => (Throw TypeError, w)
    end.

End Script.

(** ** Handlers and the runs they leave suspended *)

(** A run of the start handler gives way at each [await] until the request
    it made is answered.  It is suspended in [getCategoryIds], suspended in
    [getCategory] for one candidate with the candidates after it still to try,
    or over. *)
Inductive status : Type :=
  | AwaitCategories (count : nat) (offset : N)
  | AwaitClues (catTitle catId : jsval) (rest : list jsobj)
  | Finished (r : outcome unit).

(** The world and the runs of the start handler begun so far. *)
Record system : Type := System { sys_world : world; sys_runs : list status }.

(** What the event loop dispatches: a click on [#start], the answer to the
    request of a suspended run, and a click on the cell of row [i] and column
    [n] of the table body. *)
Inductive event : Type :=
  | ClickStart
  | Response (t : nat)
  | ClickCell (i n : nat).

Section Handlers.

Variable env : environment.

(** The click handler of [#start] up to its first [await]: the loading view,
    then [getCategoryIds(18)] up to its request. *)
Definition start_handler (sys : system) : system :=
  let w := snd (showLoadingView (sys_world sys)) in
  let offset := floor_scaled (Math_random env (rand_calls w)) 20000 in
  System (World (categories w) (document w) (member_showing w) (S (rand_calls w)))
         (sys_runs sys ++ [AwaitCategories 18 offset]).

(** Run [t] from the test of the [while] of [setupAndStart] to its next
    request or to its end; at the end of [setupAndStart] the click handler
    goes on to [hideLoadingView]. *)
Definition continue_loop (t : nat) (rest : list jsobj) (sys : system) : system :=
  let w := sys_world sys in
  if (length (categories w) <? 6)%nat then
    match rest with
    | [] => System w (<[t := Finished (Throw TypeError)]> (sys_runs sys))
    | c :: rest' =>
        System w (<[t := AwaitClues (get_prop c "title") (get_prop c "id") rest']>
                    (sys_runs sys))
    end
  else
    System (snd (hideLoadingView (snd (fillTable w))))
           (<[t := Finished (Ok tt)]> (sys_runs sys)).

(** The request of run [t] is answered and the run goes on to its next
    request or to its end. *)
Definition resume (t : nat) (sys : system) : system :=
  match sys_runs sys !! t with
  | Some (AwaitCategories count offset) =>
      match api_categories env count offset with
      | Some categoryResponse => continue_loop t categoryResponse sys
      | None =>
          System (sys_world sys)
                 (<[t := Finished (Throw TransportError)]> (sys_runs sys))
      end
  | Some (AwaitClues catTitle catId rest) =>
      match getCategory env catTitle catId (sys_world sys) with
      | (Ok (Some cat), w) =>
          continue_loop t rest
            (System (set_categories (categories w ++ [cat]) w) (sys_runs sys))
      | (Ok None, w) => continue_loop t rest (System w (sys_runs sys))
      | (Throw e, w) => System w (<[t := Finished (Throw e)]> (sys_runs sys))
      | (Diverge, w) => System w (<[t := Finished Diverge]> (sys_runs sys))
      end
  | Some (Finished _) | None => sys
  end.

(** The cell of row [i] and column [n] of the table body. *)
Definition cell_at (i n : nat) (w : world) : option element :=
  row ← tbody (document w) !! i; row !! n.

(** The click handler of the table for a click on the cell itself:
    [handleClick(e.target)], where the target is the cell of the page.  What
    [handleClick] throws ends the handler. *)
Definition click_cell (i n : nat) (w : world) : world :=
  match cell_at i n w with
  | Some target =>
      match handleClick target w with
      | (Ok target', w') =>
          let d := document w' in
          set_document
            (Page (thead d) (alter (alter (fun _ => target') n) i (tbody d))
                  (jeopardy_shown d) (spinner_shown d) (start_text d)) w'
      | (_, w') => w'
      end
  | None => w
  end.

Definition step (sys : system) (e : event) : system :=
  match e with
  | ClickStart => start_handler sys
  | Response t => resume t sys
  | ClickCell i n => System (click_cell i n (sys_world sys)) (sys_runs sys)
  end.

(** The events are dispatched one after the other, each handler running
    until it gives way. *)
Definition run (events : list event) (sys : system) : system :=
  foldl step sys events.

End Handlers.

(** ** Notions of the specification *)

(** The reveal state of a clue, as [handleClick] reads the [showing]
    property: falsy is hidden, ['question'] is the question, anything else
    is final. *)
Inductive reveal_state : Type := Hidden | Question | Answer.

#[global] Instance reveal_state_eq_dec : EqDecision reveal_state.
Proof. solve_decision. Defined.

Definition revealState (clue : jsobj) : reveal_state :=
  if truthy (get_prop clue "showing") then
    if loose_eq_str (get_prop clue "showing") "question" then Question else Answer
  else Hidden.

Definition rank (s : reveal_state) : nat :=
  match s with Hidden => 0 | Question => 1 | Answer => 2 end.

(** The clue a pair of indices addresses. *)
Definition clue_at (c k : nat) (w : world) : option jsobj :=
  cat ← categories w !! c; clues cat !! k.

(** [n] clicks on the same cell, one after the other. *)
Fixpoint click_times (n : nat) (target : element) : M element :=
  match n with
  | O => ret target
  | S n' => let* target' := handleClick target in click_times n' target'
  end.

(** The world after [n] more calls of [Math.random]. *)
Definition after_draws (n : nat) (w : world) : world :=
  World (categories w) (document w) (member_showing w) (rand_calls w + n).

(** Removing, [passes] times over, the clue at the index the next call of
    [Math.random] picks among those that remain; [k] calls were made
    before. *)
Fixpoint survivors (env : environment) (passes k : nat) (data : list jsobj)
  : list jsobj :=
  match passes with
  | O => data
  | S p =>
      survivors env p (S k)
        (splice1 (pick (Math_random env k) (length data)) data)
  end.

(** The clues of a response that [getCategory] keeps when there are five or
    more: one is removed for each clue in excess. *)
Definition kept_clues (env : environment) (data : list jsobj) (w : world)
  : list jsobj :=
  survivors env (length data - 5) (rand_calls w) data.

(** The indices those passes pick. *)
Fixpoint picks (env : environment) (passes k n : nat) : list nat :=
  match passes with
  | O => []
  | S p => pick (Math_random env k) n :: picks env p (S k) (n - 1)
  end.

(** A category has the five clues of a column. *)
Definition full (c : category) : Prop := length (clues c) = 5.

(** A candidate whose clues the remote catalogue serves, five or more of
    them. *)
Definition accepted (env : environment) (c : jsobj) : bool :=
  match api_clues env (ToString (get_prop c "id")) with
  | Some data => (5 <=? length data)%nat
  | None => false
  end.

(** ** Sample data *)

Definition source_clue (id : safe_integer) (question answer : string) : jsobj :=
  <["id" := VNum id]>
    (<["question" := VStr question]>
       (<["answer" := VStr answer]> (<["value" := VNum 200]> ∅))).

Definition eight_clues : list jsobj :=
  [ source_clue 0 "q0" "a0"; source_clue 1 "q1" "a1"; source_clue 2 "q2" "a2";
    source_clue 3 "q3" "a3"; source_clue 4 "q4" "a4"; source_clue 5 "q5" "a5";
    source_clue 6 "q6" "a6"; source_clue 7 "q7" "a7" ].

Definition candidate (id : safe_integer) (name : string) : jsobj :=
  <["id" := VNum id]> (<["title" := VStr name]> ∅).

Definition eight_candidates : list jsobj :=
  [ candidate 1 "A"; candidate 2 "B"; candidate 3 "C"; candidate 4 "D";
    candidate 5 "E"; candidate 6 "F"; candidate 7 "G"; candidate 8 "H" ].

(** The double next below or at [k / (k + 4)] among the multiples of
    2^-53. *)
Definition sample_double (k : nat) : unit_interval :=
  UnitInterval (N.of_nat k * 2 ^ 53 / (N.of_nat k + 4)) 0.

(** A catalogue of eight categories, of which number 3 has three clues and
    every other one eight; the [k]-th random number is [sample_double k]. *)
Definition sample_env : environment :=
  Environment
    (fun k => sample_double k)
    (fun _ _ => Some eight_candidates)
    (fun id => if String.eqb id "3" then Some (take 3 eight_clues)
               else Some eight_clues).

(** A catalogue none of whose categories has five clues. *)
Definition sparse_env : environment :=
  Environment
    (fun k => sample_double k)
    (fun _ _ => Some eight_candidates)
    (fun _ => Some (take 3 eight_clues)).

(** A catalogue that does not answer. *)
Definition offline_env : environment :=
  Environment (fun k => sample_double k) (fun _ _ => None) (fun _ => None).

(** A catalogue whose clue endpoint fails from category 3 on. *)
Definition flaky_env : environment :=
  Environment
    (fun k => sample_double k)
    (fun _ _ => Some eight_candidates)
    (fun id => if String.eqb id "1" || String.eqb id "2" then Some eight_clues
               else None).

Definition blank_page : page := Page [] [] true false "Start".

Definition initial_world : world := World [] blank_page ∅ 0.

(** The world after a first game has been set up from [sample_env]. *)
Definition played_world : world := snd (start_click sample_env initial_world).

(** A clue whose answer has two escape markers: a, backslash, b, backslash,
    c. *)
Definition escaped_answer : string :=
  String "a"%char (String backslash (String "b"%char (String backslash "c"))).

Definition escaped_world : world :=
  World [Category (VStr "T")
           [<["showing" := VStr "question"]>
              (prepare_clue (source_clue 0 "q" escaped_answer))]]
        blank_page ∅ 0.

(** ** Further notions *)

(** The number of occurrences of [c] in [s]. *)
Fixpoint count_char (c : Ascii.ascii) (s : string) : nat :=
  match s with
  | EmptyString => 0
  | String a s' => (if Ascii.eqb a c then 1 else 0) + count_char c s'
  end.

(** Clicks on the given targets, one after the other. *)
Fixpoint click_each (targets : list element) : M unit :=
  match targets with
  | [] => ret tt
  | target :: rest => handleClick target;;; click_each rest
  end.

(** A catalogue every category of which has exactly five clues. *)
Definition five_env : environment :=
  Environment
    (fun k => sample_double k)
    (fun _ _ => Some eight_candidates)
    (fun _ => Some (take 5 eight_clues)).

(** The cells of the table body, row after row. *)
Definition table_cells (w : world) : list element := mjoin (tbody (document w)).

(** The remote catalogue serves the clues of a candidate. *)
Definition served (env : environment) (c : jsobj) : Prop :=
  api_clues env (ToString (get_prop c "id")) <> None.

(** The category that [getCategory] makes of a candidate: its title is the
    candidate's, and its clues are the question/answer pairs of five clues
    kept, in their order, from the candidate's clue list. *)
Definition taken_from (env : environment) (cat : category) (c : jsobj) : Prop :=
  title cat = get_prop c "title" /\
  exists data kept,
    api_clues env (ToString (get_prop c "id")) = Some data /\
    kept `sublist_of` data /\ length kept = 5 /\
    clues cat = prepare_clue <$> kept.

(** Where an uninterrupted run of the loop of [setupAndStart] ends: where
    [acquire] ends, with the ready view on when it returns. *)
Definition loop_end (env : environment) (pre : list status) (rest : list jsobj)
    (w : world) : system :=
  System (match fst (acquire env rest w) with
          | Ok _ => snd (hideLoadingView (snd (fillTable (snd (acquire env rest w)))))
          | _ => snd (acquire env rest w)
          end)
         (pre ++ [Finished (fst (acquire env rest w))]).

(** Where an uninterrupted run of the start handler ends. *)
Definition start_end (env : environment) (pre : list status) (w : world) : system :=
  System (snd (start_click env w)) (pre ++ [Finished (fst (start_click env w))]).

(** The last run is suspended in [getCategory]. *)
Definition suspended (pre : list status) (sys : system) : Prop :=
  exists w catTitle catId rest,
    sys = System w (pre ++ [AwaitClues catTitle catId rest]).

(** The last run is not over. *)
Definition pending (pre : list status) (sys : system) : Prop :=
  exists w st, sys = System w (pre ++ [st]) /\ forall r, st <> Finished r.

(** A start from world [w], with the runs [runs] begun before it, whose
    first [m] requests are answered with no other event in between. *)
Definition isolated (env : environment) (m : nat) (w : world) (runs : list status)
  : system :=
  run env (ClickStart :: replicate m (Response (length runs))) (System w runs).

(** An event in the window of run [t]: no other start begins and no other
    run is answered; cells may be clicked. *)
Definition own_event (t : nat) (e : event) : Prop :=
  match e with
  | ClickStart => False
  | Response t' => t' = t
  | ClickCell _ _ => True
  end.

(** A click on a cell of the table. *)
Definition cell_click (e : event) : Prop :=
  match e with
  | ClickCell _ _ => True
  | _ => False
  end.

(** The number of answers among the events. *)
Definition responses (events : list event) : nat :=
  length (List.filter (fun e => match e with Response _ => true | _ => false end)
            events).

(** Where run [t] stands with the board: once it has returned the board has
    six categories; before that, and after a failure, the board has fewer and
    the table body is empty. *)
Definition settled (t : nat) (sys : system) : Prop :=
  match sys_runs sys !! t with
  | Some (Finished (Ok _)) => length (categories (sys_world sys)) = 6
  | Some _ =>
      length (categories (sys_world sys)) < 6 /\
      tbody (document (sys_world sys)) = []
  | None => False
  end.


(** A category whose clues are question/answer pairs as [getCategory]
    makes them. *)
Definition prepared (cat : category) : Prop :=
  exists srcs, clues cat = prepare_clue <$> srcs.

(** A target that carries the identifier of a cell with a one-digit column
    whose clue is on the board. *)
Definition addresses_clue (w : world) (target : element) : Prop :=
  exists c k, c < 10 /\ el_id target = cell_id c k /\ is_Some (clue_at c k w).

(** Every clue of the board has a string for an answer. *)
Definition answers_are_strings (w : world) : Prop :=
  forall c k clue, clue_at c k w = Some clue ->
    exists a, get_prop clue "answer" = VStr a.

(** * Properties *)

(** ** Random indices and [splice] *)

Lemma significand_lt x : (significand x < 2 ^ 53)%N.
Proof. unfold significand. by apply N.mod_lt. Qed.

(** Rounding to 53 bits moves a number by at most the 2^53-th part of
    it. *)
Lemma round53_bounds p :
  (p * (2 ^ 53 - 1) <= round53 p * 2 ^ 53 <= p * (2 ^ 53 + 1))%N.
Proof.
  unfold round53. destruct (N.log2 p <? 53)%N eqn:Hl; [lia|].
  apply N.ltb_ge in Hl.
  assert (Hp : (0 < p)%N).
  { destruct p; [|lia]. by vm_compute in Hl. }
  destruct (N.log2_spec p Hp) as [Hlow _].
  set (s := (N.log2 p - 52)%N) in *.
  assert (Hs : (N.log2 p = (s - 1) + 53)%N) by lia.
  rewrite Hs, N.pow_add_r in Hlow.
  assert (Hpow : (2 ^ s = 2 * 2 ^ (s - 1))%N).
  { replace s with (N.succ (s - 1)) at 1 by lia. apply N.pow_succ_r'. }
  assert (Hhalf : (0 < 2 ^ (s - 1))%N) by (apply N.neq_0_lt_0, N.pow_nonzero; lia).
  pose proof (N.div_mod' p (2 ^ s)) as Hdiv.
  assert (Hmod : (p mod 2 ^ s < 2 ^ s)%N) by (apply N.mod_lt; lia).
  set (q := (p / 2 ^ s)%N) in *. set (r := (p mod 2 ^ s)%N) in *.
  set (half := (2 ^ (s - 1))%N) in *. set (big := (2 ^ 53)%N) in *.
  assert (Hbig : (1 < big)%N) by (unfold big; by vm_compute).
  rewrite Hpow in *.
  destruct (r <? half)%N eqn:Hlt; [apply N.ltb_lt in Hlt; nia|].
  apply N.ltb_ge in Hlt.
  destruct (half <? r)%N eqn:Hgt; [apply N.ltb_lt in Hgt; nia|].
  apply N.ltb_ge in Hgt.
  destruct (N.even q); nia.
Qed.

Lemma floor_scaled_lt x n : (0 < n -> floor_scaled x n < n)%N.
Proof.
  intros Hn. unfold floor_scaled.
  apply N.Div0.div_lt_upper_bound.
  pose proof (significand_lt x) as Hsig.
  destruct (round53_bounds (significand x * n)) as [_ Hup].
  assert (Hexp : (2 ^ 53 <= 2 ^ exponent x)%N)
    by (apply N.pow_le_mono_r; unfold exponent; lia).
  set (big := (2 ^ 53)%N) in *.
  assert (Hbig : (1 < big)%N) by (unfold big; by vm_compute).
  nia.
Qed.

Lemma pick_lt x n : 0 < n -> pick x n < n.
Proof.
  intros Hn. unfold pick.
  assert (floor_scaled x (N.of_nat n) < N.of_nat n)%N by (apply floor_scaled_lt; lia).
  lia.
Qed.

(** The floor of the double product is [i] for every random number of the
    interval [[i/n, (i+1)/n)] taken in by the 2^53-th part at either end, and
    for none outside that interval let out by as much. *)
Lemma floor_scaled_interval x n i :
  ((i * 2 ^ exponent x * 2 ^ 53 <= significand x * n * (2 ^ 53 - 1) /\
    significand x * n * (2 ^ 53 + 1) < (i + 1) * 2 ^ exponent x * 2 ^ 53 ->
    floor_scaled x n = i) /\
   (floor_scaled x n = i ->
    i * 2 ^ exponent x * 2 ^ 53 <= significand x * n * (2 ^ 53 + 1) /\
    significand x * n * (2 ^ 53 - 1) < (i + 1) * 2 ^ exponent x * 2 ^ 53))%N.
Proof.
  unfold floor_scaled.
  destruct (round53_bounds (significand x * n)) as [Hlo Hup].
  set (p := (significand x * n)%N) in *.
  set (e := (2 ^ exponent x)%N).
  assert (He : (0 < e)%N) by (apply N.neq_0_lt_0, N.pow_nonzero; lia).
  set (big := (2 ^ 53)%N) in *.
  assert (Hbig : (1 < big)%N) by (unfold big; by vm_compute).
  pose proof (N.div_mod' (round53 p) e) as Hdiv.
  assert (Hmod : (round53 p mod e < e)%N) by (apply N.mod_lt; lia).
  clearbody p e big.
  split.
  - intros [Hin Hin'].
    assert (Hge : (i * e <= round53 p)%N)
      by (apply (N.mul_le_mono_pos_r _ _ big); lia).
    assert (Hlt : (round53 p < (i + 1) * e)%N)
      by (apply (N.mul_lt_mono_pos_r big); lia).
    symmetry. apply (N.div_unique _ _ _ (round53 p - i * e)%N); lia.
  - intros <-. set (q := (round53 p / e)%N) in *.
    set (r := (round53 p mod e)%N) in *. clearbody q r.
    assert (Hge : (q * e <= round53 p)%N) by lia.
    assert (Hlt : (round53 p < (q + 1) * e)%N) by lia.
    apply (N.mul_le_mono_r _ _ big) in Hge.
    apply (N.mul_lt_mono_pos_r big) in Hlt; lia.
Qed.

Lemma pick_interval x n i :
  (well_inside x n i -> pick x n = i) /\ (pick x n = i -> about_inside x n i).
Proof.
  destruct (floor_scaled_interval x (N.of_nat n) (N.of_nat i)) as [Hin Hout].
  unfold pick, well_inside, about_inside. split.
  - intros H. rewrite (Hin H). lia.
  - intros H. apply Hout. lia.
Qed.

(** Every index of an array can be picked. *)
Lemma pick_middle n i :
  i < n -> (N.of_nat n < 2 ^ 32)%N -> pick (middle_double n i) n = i.
Proof.
  intros Hi Hn. apply pick_interval.
  unfold well_inside, significand, exponent. cbn [middle_double mantissa scale].
  pose proof (N.div_mod' (N.of_nat (2 * i + 1) * 2 ^ 52) (N.of_nat n)) as Hdiv.
  assert (Hmod : ((N.of_nat (2 * i + 1) * 2 ^ 52) mod N.of_nat n < N.of_nat n)%N)
    by (apply N.mod_lt; lia).
  set (m := (N.of_nat (2 * i + 1) * 2 ^ 52 / N.of_nat n)%N) in *.
  set (r := ((N.of_nat (2 * i + 1) * 2 ^ 52) mod N.of_nat n)%N) in *.
  clearbody m r.
  assert (Hm : (m < 2 ^ 53)%N).
  { apply (N.mul_lt_mono_pos_l (N.of_nat n)); lia. }
  rewrite (N.mod_small m) by done.
  replace (53 + N.min 0 1021)%N with 53%N by lia.
  set (P := (m * N.of_nat n)%N).
  assert (HP : (P = N.of_nat (2 * i + 1) * 2 ^ 52 - r)%N) by lia.
  clearbody P.
  change (2 ^ 32)%N with 4294967296%N in Hn.
  change (2 ^ 52)%N with 4503599627370496%N in *.
  change (2 ^ 53)%N with 9007199254740992%N in *.
  lia.
Qed.

Lemma splice1_delete {A} (i : nat) (l : list A) : splice1 i l = delete i l.
Proof. unfold splice1. by rewrite delete_take_drop. Qed.

Lemma length_splice1 {A} (i : nat) (l : list A) :
  i < length l -> S (length (splice1 i l)) = length l.
Proof.
  intros Hi. rewrite splice1_delete, length_delete.
  - lia.
  - by apply lookup_lt_is_Some_2.
Qed.

Lemma splice1_past_end {A} (i : nat) (l : list A) :
  length l <= i -> splice1 i l = l.
Proof.
  intros Hi. unfold splice1. rewrite take_ge, drop_ge by lia. apply app_nil_r.
Qed.

Lemma splice1_sublist {A} (i : nat) (l : list A) : splice1 i l `sublist_of` l.
Proof. rewrite splice1_delete. apply sublist_delete. Qed.

(** ** The clue-reduction loop *)

Section Reduction.

Variable env : environment.

Lemma after_draws_0 w : after_draws 0 w = w.
Proof. destruct w. unfold after_draws. simpl. by rewrite Nat.add_0_r. Qed.

Lemma after_draws_add n m w :
  after_draws n (after_draws m w) = after_draws (m + n) w.
Proof. unfold after_draws. simpl. f_equal. lia. Qed.

(** One pass removes exactly one clue. *)
Lemma drop_random_clue_spec (data : list jsobj) (w : world) :
  0 < length data ->
  exists data',
    drop_random_clue env data w = (Ok data', after_draws 1 w) /\
    data' = splice1 (pick (Math_random env (rand_calls w)) (length data)) data /\
    S (length data') = length data.
Proof.
  intros Hpos. eexists. split; [|split; [reflexivity|]].
  - unfold drop_random_clue, bind, random_below, ret, after_draws.
    repeat f_equal. lia.
  - apply length_splice1. by apply pick_lt.
Qed.

Lemma length_survivors (passes k : nat) (data : list jsobj) :
  passes <= length data ->
  length (survivors env passes k data) = length data - passes.
Proof.
  revert k data. induction passes as [|p IH]; intros k data Hle; simpl.
  - lia.
  - assert (Hlt : pick (Math_random env k) (length data) < length data)
      by (apply pick_lt; lia).
    apply length_splice1 in Hlt. rewrite IH; lia.
Qed.

Lemma survivors_sublist (passes k : nat) (data : list jsobj) :
  survivors env passes k data `sublist_of` data.
Proof.
  revert k data. induction passes as [|p IH]; intros k data; simpl.
  - done.
  - etrans; [apply IH | apply splice1_sublist].
Qed.

(** The survivors are what is left after removing the picked indices in
    turn. *)
Lemma survivors_picks (passes k : nat) (data : list jsobj) :
  passes <= length data ->
  survivors env passes k data
  = foldl (fun d i => splice1 i d) data (picks env passes k (length data)).
Proof.
  revert k data. induction passes as [|p IH]; intros k data Hle; simpl.
  - done.
  - assert (Hlt : pick (Math_random env k) (length data) < length data)
      by (apply pick_lt; lia).
    apply length_splice1 in Hlt.
    rewrite IH by lia. do 2 f_equal. lia.
Qed.

(** Every pick is an index of the array as it is at that pass. *)
Lemma picks_in_range (passes k n : nat) :
  passes <= n ->
  forall j i, picks env passes k n !! j = Some i -> i < n - j.
Proof.
  revert k n. induction passes as [|p IH]; intros k n Hle j i; simpl.
  - by rewrite lookup_nil.
  - destruct j as [|j]; simpl.
    + intros [= <-]. rewrite Nat.sub_0_r. apply pick_lt. lia.
    + intros Hj. apply IH in Hj; lia.
Qed.

Lemma length_picks (passes k n : nat) : length (picks env passes k n) = passes.
Proof. revert k n. induction passes; intros; simpl; auto. Qed.

(** With fuel for one pass per clue in excess, the loop runs to its end. *)
Lemma reduce_clues_spec (fuel : nat) (data : list jsobj) (w : world) :
  length data - 5 <= fuel ->
  reduce_clues env fuel data w
  = (Ok (survivors env (length data - 5) (rand_calls w) data),
     after_draws (length data - 5) w).
Proof.
  revert data w. induction fuel as [|fuel IH]; intros data w Hfuel.
  - simpl. destruct (5 <? length data)%nat eqn:Hlen.
    + apply Nat.ltb_lt in Hlen. lia.
    + apply Nat.ltb_ge in Hlen.
      replace (length data - 5) with 0 by lia.
      by rewrite after_draws_0.
  - simpl. destruct (5 <? length data)%nat eqn:Hlen.
    + apply Nat.ltb_lt in Hlen.
      destruct (drop_random_clue_spec data w) as (data' & Hstep & Hdata' & Hlen'); [lia|].
      unfold bind at 1. rewrite Hstep.
      rewrite IH by lia. rewrite after_draws_add.
      replace (length data - 5) with (S (length data' - 5)) by lia.
      replace (rand_calls (after_draws 1 w)) with (S (rand_calls w))
        by (simpl; lia).
      cbn [survivors]. by rewrite <- Hdata'.
    + apply Nat.ltb_ge in Hlen.
      replace (length data - 5) with 0 by lia.
      by rewrite after_draws_0.
Qed.

End Reduction.

(** ** [getCategory] *)

Section GetCategory.

Variable env : environment.

Lemma fill_clues_spec (n i : nat) (data clueArray : list jsobj) (w : world) :
  i + n <= length data ->
  fill_clues n i data clueArray w
  = (Ok (clueArray ++ (prepare_clue <$> take n (drop i data))), w).
Proof.
  revert i clueArray. induction n as [|n IH]; intros i clueArray Hle; simpl.
  - by rewrite app_nil_r.
  - destruct (data !! i) as [c|] eqn:Hc.
    + rewrite IH by lia. rewrite <- app_assoc. simpl.
      by rewrite (drop_S _ _ _ Hc).
    + apply lookup_ge_None in Hc. lia.
Qed.

Lemma length_kept_clues data w : 5 <= length data -> length (kept_clues env data w) = 5.
Proof. intros Hle. unfold kept_clues. rewrite length_survivors; lia. Qed.

Lemma getCategory_offline catTitle catId w :
  api_clues env (ToString catId) = None ->
  getCategory env catTitle catId w = (Throw TransportError, w).
Proof. intros H. unfold getCategory. by rewrite H. Qed.

Lemma getCategory_short catTitle catId data w :
  api_clues env (ToString catId) = Some data ->
  length data < 5 ->
  getCategory env catTitle catId w = (Ok None, w).
Proof.
  intros H Hlen. unfold getCategory. rewrite H.
  apply Nat.ltb_lt in Hlen. by rewrite Hlen.
Qed.

Lemma getCategory_enough catTitle catId data w :
  api_clues env (ToString catId) = Some data ->
  5 <= length data ->
  getCategory env catTitle catId w
  = (Ok (Some (Category catTitle (prepare_clue <$> kept_clues env data w))),
     after_draws (length data - 5) w).
Proof.
  intros H Hlen. unfold getCategory. rewrite H.
  apply Nat.ltb_ge in Hlen as Hlen'. rewrite Hlen'.
  unfold bind at 1. rewrite reduce_clues_spec by lia.
  unfold bind. fold (kept_clues env data w).
  rewrite fill_clues_spec by (rewrite length_kept_clues; lia).
  simpl. rewrite drop_0, take_ge by (rewrite length_kept_clues; lia).
  done.
Qed.

(** [getCategory] returns or throws; its loop is never cut off. *)
Lemma getCategory_total catTitle catId w :
  fst (getCategory env catTitle catId w) <> Diverge.
Proof.
  destruct (api_clues env (ToString catId)) as [data|] eqn:H.
  - destruct (Nat.lt_ge_cases (length data) 5).
    + by erewrite getCategory_short.
    + by erewrite getCategory_enough.
  - by rewrite getCategory_offline.
Qed.

(** [getCategory] leaves the board, the page and the inherited members as
    they are. *)
Lemma getCategory_world catTitle catId w :
  exists n, snd (getCategory env catTitle catId w) = after_draws n w.
Proof.
  destruct (api_clues env (ToString catId)) as [data|] eqn:H.
  - destruct (Nat.lt_ge_cases (length data) 5).
    + exists 0. erewrite getCategory_short by done. simpl. by rewrite after_draws_0.
    + eexists. by erewrite getCategory_enough.
  - exists 0. rewrite getCategory_offline by done. simpl. by rewrite after_draws_0.
Qed.

End GetCategory.

(** ** The clues of a prepared category *)

Lemma prepare_clue_question c :
  prepare_clue c !! "question" = Some (VStr (ToString (get_prop c "question"))).
Proof. unfold prepare_clue. by rewrite lookup_insert_eq. Qed.

Lemma prepare_clue_answer c :
  prepare_clue c !! "answer" = Some (VStr (ToString (get_prop c "answer"))).
Proof. unfold prepare_clue. rewrite lookup_insert_ne by done. by rewrite lookup_insert_eq. Qed.

Lemma prepare_clue_other c k :
  k <> "question" -> k <> "answer" -> prepare_clue c !! k = None.
Proof.
  intros Hq Ha. unfold prepare_clue.
  rewrite !lookup_insert_ne by done. apply lookup_empty.
Qed.

Lemma prepare_clue_dom c : dom (prepare_clue c) = {[ "question"; "answer" ]}.
Proof. unfold prepare_clue. rewrite !dom_insert_L, dom_empty_L. set_solver. Qed.

Lemma prepare_clue_hidden c : revealState (prepare_clue c) = Hidden.
Proof.
  unfold revealState, get_prop. by rewrite prepare_clue_other.
Qed.

Lemma picks_lookup env (passes k n j : nat) :
  j < passes ->
  picks env passes k n !! j = Some (pick (Math_random env (k + j)) (n - j)).
Proof.
  revert k n j. induction passes as [|p IH]; intros k n j Hj; [lia|].
  destruct j as [|j]; simpl.
  - by rewrite Nat.add_0_r, Nat.sub_0_r.
  - rewrite IH by lia.
    replace (S k + j) with (k + S j) by lia.
    by replace (n - 1 - j) with (n - S j) by lia.
Qed.

(** C10: the clue-reduction loop of getCategory terminates on every finite
    response.  A pass of the loop removes exactly one clue, so the length
    goes down by one each time; with fuel for one pass per clue beyond five
    the loop returns, after exactly that many passes (one call of
    Math.random each), and what is left has five clues, or all of them when
    there were five or fewer. *)
Theorem clue_reduction_terminates (env : environment) (data : list jsobj) (w : world) :
  (5 < length data ->
   exists data',
     drop_random_clue env data w = (Ok data', after_draws 1 w) /\
     S (length data') = length data) /\
  exists kept,
    (forall fuel, length data - 5 <= fuel ->
       reduce_clues env fuel data w = (Ok kept, after_draws (length data - 5) w)) /\
    length kept = Nat.min 5 (length data).
Proof.
  split.
  - intros Hlen.
    destruct (drop_random_clue_spec env data w) as (data' & Hstep & _ & Hlen'); [lia|].
    by exists data'.
  - exists (survivors env (length data - 5) (rand_calls w) data). split.
    + intros fuel Hfuel. by apply reduce_clues_spec.
    + rewrite length_survivors; lia.
Qed.

(** C3: given the clue list the source returns, getCategory returns the
    rejection signal (the value false, neither an error nor a category) if and
    only if the list has fewer than 5 clues; otherwise it returns a category
    under the given title with exactly 5 clues. *)
Theorem getCategory_rejects_iff_short
    (env : environment) (catTitle catId : jsval) (data : list jsobj) (w : world) :
  api_clues env (ToString catId) = Some data ->
  (fst (getCategory env catTitle catId w) = Ok None <-> length data < 5) /\
  (5 <= length data ->
   exists c, fst (getCategory env catTitle catId w) = Ok (Some c) /\
             title c = catTitle /\ length (clues c) = 5).
Proof.
  intros Hdata. destruct (Nat.lt_ge_cases (length data) 5) as [Hlt|Hge].
  - rewrite (getCategory_short env _ _ data) by done. simpl. split; [done | lia].
  - rewrite (getCategory_enough env _ _ data) by done. simpl. split.
    + split; [done | lia].
    + intros _. eexists. split; [done|]. simpl.
      by rewrite length_fmap, length_kept_clues.
Qed.

Lemma getCategory_rejects_iff_short_witness :
  api_clues sample_env (ToString (VNum 3)) = Some (take 3 eight_clues) /\
  (fst (getCategory sample_env (VStr "C") (VNum 3) initial_world) = Ok None
   <-> length (take 3 eight_clues) < 5) /\
  (5 <= length (take 3 eight_clues) ->
   exists c, fst (getCategory sample_env (VStr "C") (VNum 3) initial_world) = Ok (Some c) /\
             title c = VStr "C" /\ length (clues c) = 5).
Proof.
  split; [reflexivity|].
  apply (getCategory_rejects_iff_short sample_env (VStr "C") (VNum 3)
           (take 3 eight_clues) initial_world).
  reflexivity.
Defined.

(** C4: when the source returns more than 5 clues, getCategory returns
    exactly 5 clues.  They are the question/answer pairs of clues kept from
    the response: what is left after removing, once for each clue in excess,
    the clue at the index Math.floor(Math.random() * length) among those that
    remain.  Every such index is in range and every index of an array can
    come out.  The index follows the random number as evenly as a product of
    doubles allows: it is [i] whenever the random number lies in
    [i/length, (i+1)/length) with the 2^53-th part of the product to spare at
    either end, and it is [i] only when the random number lies in that
    interval but for as much.  The kept clues are in the order of the response
    (a subsequence of it), so each returned clue comes from a clue of the
    response. *)
Theorem getCategory_keeps_five_of_many
    (env : environment) (catTitle catId : jsval) (data : list jsobj) (w : world) :
  api_clues env (ToString catId) = Some data ->
  5 < length data ->
  exists kept,
    getCategory env catTitle catId w
    = (Ok (Some (Category catTitle (prepare_clue <$> kept))),
       after_draws (length data - 5) w) /\
    length kept = 5 /\
    kept `sublist_of` data /\
    (forall clue, clue ∈ prepare_clue <$> kept ->
       exists c, c ∈ data /\ clue = prepare_clue c) /\
    kept = foldl (fun d i => splice1 i d) data
             (picks env (length data - 5) (rand_calls w) (length data)) /\
    (forall j, j < length data - 5 ->
       exists i,
         picks env (length data - 5) (rand_calls w) (length data) !! j = Some i /\
         i = pick (Math_random env (rand_calls w + j)) (length data - j) /\
         i < length data - j) /\
    (forall x n i,
       (well_inside x n i -> pick x n = i) /\
       (pick x n = i -> about_inside x n i)) /\
    (forall n i, i < n -> (N.of_nat n < 2 ^ 32)%N -> exists x, pick x n = i).
Proof.
  intros Hdata Hlen. exists (kept_clues env data w).
  split; [apply getCategory_enough; [done | lia]|].
  split; [apply length_kept_clues; lia|].
  split; [apply survivors_sublist|].
  split.
  { intros clue (c & -> & Hc)%list_elem_of_fmap. exists c. split; [|done].
    eapply elem_of_sublist; [done | apply survivors_sublist]. }
  split; [apply survivors_picks; lia|].
  split.
  { intros j Hj. eexists. split; [by apply picks_lookup|]. split; [done|].
    apply pick_lt. lia. }
  split; [apply pick_interval|].
  intros n i Hi Hn. exists (middle_double n i). by apply pick_middle.
Qed.

Lemma getCategory_keeps_five_of_many_witness :
  api_clues sample_env (ToString (VNum 1)) = Some eight_clues /\
  5 < length eight_clues /\
  exists kept,
    getCategory sample_env (VStr "A") (VNum 1) initial_world
    = (Ok (Some (Category (VStr "A") (prepare_clue <$> kept))),
       after_draws (length eight_clues - 5) initial_world) /\
    length kept = 5 /\
    kept `sublist_of` eight_clues /\
    (forall clue, clue ∈ prepare_clue <$> kept ->
       exists c, c ∈ eight_clues /\ clue = prepare_clue c) /\
    kept = foldl (fun d i => splice1 i d) eight_clues
             (picks sample_env (length eight_clues - 5) (rand_calls initial_world)
                (length eight_clues)) /\
    (forall j, j < length eight_clues - 5 ->
       exists i,
         picks sample_env (length eight_clues - 5) (rand_calls initial_world)
           (length eight_clues) !! j = Some i /\
         i = pick (Math_random sample_env (rand_calls initial_world + j))
               (length eight_clues - j) /\
         i < length eight_clues - j) /\
    (forall x n i,
       (well_inside x n i -> pick x n = i) /\
       (pick x n = i -> about_inside x n i)) /\
    (forall n i, i < n -> (N.of_nat n < 2 ^ 32)%N -> exists x, pick x n = i).
Proof.
  split; [reflexivity|]. split; [simpl; lia|].
  apply (getCategory_keeps_five_of_many sample_env (VStr "A") (VNum 1)
           eight_clues initial_world); [reflexivity | simpl; lia].
Defined.

(** C8: every clue of a category returned by getCategory has exactly the two
    properties question and answer, holding the source clue's question and
    answer as strings; it has no showing property, which is the Hidden reveal
    state; no other property of the source clue is carried over. *)
Theorem getCategory_clue_fields
    (env : environment) (catTitle catId : jsval) (w w' : world) (c : category) :
  getCategory env catTitle catId w = (Ok (Some c), w') ->
  forall clue, clue ∈ clues c ->
    dom clue = {[ "question"; "answer" ]} /\
    clue !! "showing" = None /\
    revealState clue = Hidden /\
    (forall k, k <> "question" -> k <> "answer" -> clue !! k = None) /\
    exists data src,
      api_clues env (ToString catId) = Some data /\ src ∈ data /\
      clue !! "question" = Some (VStr (ToString (get_prop src "question"))) /\
      clue !! "answer" = Some (VStr (ToString (get_prop src "answer"))).
Proof.
  intros Hget clue Hclue.
  destruct (api_clues env (ToString catId)) as [data|] eqn:Hdata.
  2: { rewrite getCategory_offline in Hget by done. discriminate. }
  destruct (Nat.lt_ge_cases (length data) 5) as [Hlt|Hge].
  { rewrite (getCategory_short env _ _ data) in Hget by done. discriminate. }
  rewrite (getCategory_enough env _ _ data) in Hget by done.
  injection Hget as <- <-. simpl in Hclue.
  apply list_elem_of_fmap in Hclue as (src & -> & Hsrc).
  split; [apply prepare_clue_dom|].
  split; [by apply prepare_clue_other|].
  split; [apply prepare_clue_hidden|].
  split; [apply prepare_clue_other|].
  exists data, src. split; [done|]. split.
  - eapply elem_of_sublist; [done | apply survivors_sublist].
  - split; [apply prepare_clue_question | apply prepare_clue_answer].
Qed.

Lemma getCategory_clue_fields_witness :
  exists c w',
    getCategory sample_env (VStr "A") (VNum 1) initial_world = (Ok (Some c), w') /\
    forall clue, clue ∈ clues c ->
      dom clue = {[ "question"; "answer" ]} /\
      clue !! "showing" = None /\
      revealState clue = Hidden /\
      (forall k, k <> "question" -> k <> "answer" -> clue !! k = None) /\
      exists data src,
        api_clues sample_env (ToString (VNum 1)) = Some data /\ src ∈ data /\
        clue !! "question" = Some (VStr (ToString (get_prop src "question"))) /\
        clue !! "answer" = Some (VStr (ToString (get_prop src "answer"))).
Proof.
  exists (Category (VStr "A")
            (prepare_clue <$> kept_clues sample_env eight_clues initial_world)),
         (after_draws 3 initial_world).
  split; [vm_compute; reflexivity|].
  eapply (getCategory_clue_fields sample_env (VStr "A") (VNum 1) initial_world).
  vm_compute. reflexivity.
Defined.

(** ** The acquisition loop *)

Section Acquisition.

Variable env : environment.

Lemma getCategory_cases catTitle catId w :
  (api_clues env (ToString catId) = None /\
   getCategory env catTitle catId w = (Throw TransportError, w)) \/
  (exists data, api_clues env (ToString catId) = Some data /\ length data < 5 /\
     getCategory env catTitle catId w = (Ok None, w)) \/
  (exists data cat, api_clues env (ToString catId) = Some data /\ 5 <= length data /\
     full cat /\
     getCategory env catTitle catId w = (Ok (Some cat), after_draws (length data - 5) w)).
Proof.
  destruct (api_clues env (ToString catId)) as [data|] eqn:H.
  - destruct (Nat.lt_ge_cases (length data) 5).
    + right; left. exists data. eauto using getCategory_short.
    + right; right. eexists data, _. split; [done|]. split; [done|].
      split; [|by apply getCategory_enough].
      unfold full. simpl. by rewrite length_fmap, length_kept_clues.
  - left. eauto using getCategory_offline.
Qed.

(** What a run of the loop leaves behind: the categories it accepted, each
    with five clues, appended to those that were there.  It returns only
    with six categories or more, and throws only with fewer. *)
Lemma acquire_result candidates w r w' :
  acquire env candidates w = (r, w') ->
  document w' = document w /\ member_showing w' = member_showing w /\
  exists new,
    categories w' = categories w ++ new /\ Forall full new /\
    match r with
    | Ok _ => 6 <= length (categories w') /\
              (length (categories w) <= 6 -> length (categories w') = 6)
    | Throw e => length (categories w') < 6 /\ (e = TypeError \/ e = TransportError)
    | Diverge => False
    end.
Proof.
  revert w. induction candidates as [|c rest IH]; intros w; simpl.
  - destruct (length (categories w) <? 6)%nat eqn:Hlen; intros [= <- <-];
      (split; [done|]); (split; [done|]); exists []; rewrite app_nil_r;
      (split; [done|]); (split; [constructor|]).
    + apply Nat.ltb_lt in Hlen. auto.
    + apply Nat.ltb_ge in Hlen. lia.
  - destruct (length (categories w) <? 6)%nat eqn:Hlen.
    2: { intros [= <- <-]. apply Nat.ltb_ge in Hlen.
         do 2 (split; [done|]). exists []. rewrite app_nil_r.
         split; [done|]. split; [constructor | lia]. }
    apply Nat.ltb_lt in Hlen. unfold bind at 1. unfold bind at 1.
    destruct (getCategory_cases (get_prop c "title") (get_prop c "id") w)
      as [[_ ->] | [(data & _ & _ & ->) | (data & cat & _ & _ & Hfull & ->)]].
    + intros [= <- <-]. do 2 (split; [done|]). exists []. rewrite app_nil_r.
      split; [done|]. split; [constructor | auto].
    + unfold ret. intros (Hd & Hm & new & Hcs & Hnew & Hr)%IH.
      do 2 (split; [done|]). by exists new.
    + unfold modify. intros (Hd & Hm & new & Hcs & Hnew & Hr)%IH.
      simpl in *. do 2 (split; [done|]).
      exists (cat :: new). rewrite Hcs, <- app_assoc. simpl.
      split; [done|]. split; [by constructor|].
      rewrite Hcs in Hr. rewrite !length_app in Hr. simpl in Hr.
      rewrite length_app. simpl.
      destruct r as [[]|e|]; [lia | split; [lia | tauto] | done].
Qed.

Lemma fillTable_categories w : categories (snd (fillTable w)) = categories w.
Proof. unfold fillTable. by destruct (header_cells 6 0 (categories w)). Qed.

Lemma setupAndStart_result w r w' :
  setupAndStart env w = (r, w') ->
  exists new,
    categories w' = categories w ++ new /\ Forall full new /\
    match r with
    | Ok _ => 6 <= length (categories w') /\
              (length (categories w) <= 6 -> length (categories w') = 6)
    | Throw e => (new = [] \/ length (categories w') < 6) /\
                 (e = TypeError \/ e = TransportError)
    | Diverge => False
    end.
Proof.
  unfold setupAndStart, getCategoryIds. unfold bind at 1. unfold bind at 1.
  unfold random_below.
  destruct (api_categories env 18 _) as [candidates|]; simpl.
  - unfold bind.
    destruct (acquire env candidates _) as [r1 w1] eqn:Hacq.
    apply acquire_result in Hacq as (_ & _ & new & Hcs & Hnew & Hr).
    simpl in Hcs.
    destruct r1 as [[]|e|]; intros [= <- <-].
    + exists new. rewrite fillTable_categories. by rewrite Hcs in *.
    + exists new. rewrite Hcs in *. split; [done|]. split; [done|].
      split; [right|]; apply Hr.
    + done.
  - intros [= <- <-]. exists []. simpl. rewrite app_nil_r. 
    split; [done|]. split; [constructor | auto].
Qed.

(** When the candidates run out before six categories are there, the loop
    reads past the end of the candidate list. *)
Lemma acquire_exhausted candidates w :
  Forall (fun c => api_clues env (ToString (get_prop c "id")) <> None) candidates ->
  length (categories w) + length (List.filter (accepted env) candidates) < 6 ->
  fst (acquire env candidates w) = Throw TypeError.
Proof.
  revert w. induction candidates as [|c rest IH]; intros w Hserved Hfew; simpl in *.
  - assert (Hlen : (length (categories w) <? 6)%nat = true) by (apply Nat.ltb_lt; lia).
    by rewrite Hlen.
  - apply Forall_cons in Hserved as [Hc Hrest].
    assert (Hlen : (length (categories w) <? 6)%nat = true).
    { apply Nat.ltb_lt. lia. }
    rewrite Hlen. unfold bind at 1. unfold bind at 1.
    unfold accepted in Hfew at 1.
    destruct (getCategory_cases (get_prop c "title") (get_prop c "id") w)
      as [[Hnone _] | [(data & Hdata & Hshort & ->) | (data & cat & Hdata & Hge & _ & ->)]].
    + done.
    + rewrite Hdata in Hfew.
      assert (Hle : (5 <=? length data)%nat = false) by (apply Nat.leb_gt; lia).
      rewrite Hle in Hfew. unfold ret. by apply IH.
    + rewrite Hdata in Hfew.
      assert (Hle : (5 <=? length data)%nat = true) by (apply Nat.leb_le; lia).
      rewrite Hle in Hfew. simpl in Hfew. unfold modify.
      apply IH; [done|]. simpl. rewrite length_app. simpl. lia.
Qed.

(** A new game starts from an empty board whatever the board was. *)
Lemma start_click_forgets prior w :
  start_click env (set_categories prior w) = start_click env w.
Proof. reflexivity. Qed.

Lemma start_click_result w r w' :
  start_click env w = (r, w') ->
  Forall full (categories w') /\
  match r with
  | Ok _ => length (categories w') = 6
  | Throw e => length (categories w') < 6 /\ (e = TypeError \/ e = TransportError)
  | Diverge => False
  end.
Proof.
  unfold start_click, showLoadingView, modify. unfold bind at 1. unfold bind at 1.
  destruct (setupAndStart env _) as [r1 w1] eqn:Hsetup.
  apply setupAndStart_result in Hsetup as (new & Hcs & Hnew & Hr).
  simpl in Hcs. subst new.
  destruct r1 as [[]|e|]; intros [= <- <-]; simpl.
  - split; [done|]. apply Hr. simpl. lia.
  - split; [done|]. destruct Hr as [[Hnil | Hlt] He]; [|done].
    rewrite Hnil. simpl. split; [lia | done].
  - done.
Qed.

End Acquisition.

Lemma start_click_offline env w :
  api_categories env 18 (floor_scaled (Math_random env (rand_calls w)) 20000) = None ->
  start_click env w
  = (Throw TransportError,
     World [] (Page [] [] false true "Loading") (member_showing w) (S (rand_calls w))).
Proof.
  intros Hoff.
  unfold start_click, showLoadingView, modify, setupAndStart, getCategoryIds,
    random_below, bind.
  cbn [rand_calls]. by rewrite Hoff.
Qed.

(** C5: with a catalogue none of whose eight candidates has five clues, the
    loop of setupAndStart accepts nothing, reads the candidate past the end
    of the list and throws the TypeError of reading a property of undefined,
    not an InsufficientCategoriesError; the start handler stops there, with
    an empty board and the page left in its loading view. *)
Theorem setupAndStart_reads_past_candidates :
  api_categories sparse_env 18
    (floor_scaled (Math_random sparse_env 0) 20000) = Some eight_candidates /\
  List.filter (accepted sparse_env) eight_candidates = [] /\
  fst (setupAndStart sparse_env initial_world) = Throw TypeError /\
  fst (setupAndStart sparse_env initial_world) <> Throw InsufficientCategoriesError /\
  start_click sparse_env initial_world
  = (Throw TypeError, World [] (Page [] [] false true "Loading") ∅ 1).
Proof.
  split; [vm_compute; reflexivity|]. split; [vm_compute; reflexivity|].
  assert (Hrun : fst (setupAndStart sparse_env initial_world) = Throw TypeError)
    by (vm_compute; reflexivity).
  split; [done|]. split; [by rewrite Hrun|].
  vm_compute. reflexivity.
Qed.

(** C6, as the claim states it, fails: a game is on the board, the catalogue
    does not answer, and after the failed attempt the categories list is
    empty. *)
Lemma start_click_wipes_prior_board :
  length (categories played_world) = 6 /\
  fst (start_click offline_env played_world) = Throw TransportError /\
  categories (snd (start_click offline_env played_world)) = [] /\
  categories (snd (start_click offline_env played_world)) <> categories played_world.
Proof.
  split; [vm_compute; reflexivity|].
  assert (Hrun : start_click offline_env played_world
                 = (Throw TransportError,
                    World [] (Page [] [] false true "Loading") ∅ 20))
    by (vm_compute; reflexivity).
  rewrite Hrun. cbn [fst snd categories].
  split; [done|]. split; [done|].
  intros Heq. apply (f_equal length) in Heq. vm_compute in Heq. discriminate.
Qed.

(** ** Cell identifiers and array keys *)

Lemma to_uint_nonnil n : Nat.to_uint n <> Decimal.Nil.
Proof.
  rewrite <- (DecimalNat.Unsigned.of_to n) at 1.
  rewrite DecimalNat.Unsigned.to_of. apply DecimalFacts.unorm_nonnil.
Qed.

(** The numeral of [n] is the key of index [n]. *)
Lemma array_index_decimal n : array_index (decimal n) = Some n.
Proof.
  unfold array_index, decimal at 1.
  rewrite NilZero.usu by apply to_uint_nonnil.
  rewrite DecimalNat.Unsigned.of_to. by rewrite String.eqb_refl.
Qed.

Lemma array_get_decimal {A} (arr : list A) n :
  array_get arr (decimal n)
  = match arr !! n with Some a => ElementAt n a | None => Undefined end.
Proof. unfold array_get. by rewrite array_index_decimal. Qed.

Lemma uint_of_string_dash s t :
  NilEmpty.uint_of_string (s +:+ String "-" t) = None.
Proof.
  induction s as [|a s IH]; simpl.
  - by destruct (NilEmpty.uint_of_string t).
  - by rewrite IH.
Qed.

Lemma array_index_dash s t : array_index (s +:+ String "-" t) = None.
Proof.
  unfold array_index, NilZero.uint_of_string.
  rewrite uint_of_string_dash. by destruct (s +:+ String "-" t).
Qed.

Lemma occurs_dash s t : occurs "-" (s +:+ String "-" t) = true.
Proof.
  induction s as [|a s IH]; simpl; [done|]. rewrite IH. apply orb_true_r.
Qed.

Lemma array_members_no_dash key : key ∈ array_members -> occurs "-" key = false.
Proof.
  assert (H : Forall (fun k => occurs "-" k = false) array_members)
    by (repeat constructor).
  rewrite Forall_forall in H. apply H.
Qed.

(** A key with a dash in it names nothing in an array. *)
Lemma array_get_dash {A} (arr : list A) s t :
  array_get arr (s +:+ String "-" t) = Undefined.
Proof.
  unfold array_get. rewrite array_index_dash.
  rewrite bool_decide_eq_false_2; [done|].
  intros Hin%array_members_no_dash. by rewrite occurs_dash in Hin.
Qed.

Lemma cell_id_small n i :
  n < 10 ->
  slice_0_1 (cell_id n i) = decimal n /\ slice_from 2 (cell_id n i) = decimal i.
Proof.
  intros Hn. unfold cell_id.
  do 10 (destruct n as [|n]; [split; reflexivity|]). lia.
Qed.

Lemma decimal_two_digits n :
  10 <= n -> exists a b rest, decimal n = String a (String b rest).
Proof.
  intros Hn. unfold decimal.
  pose proof (DecimalNat.Unsigned.of_to n) as Hof.
  destruct (Nat.to_uint n) as [|u|u|u|u|u|u|u|u|u|u];
    [vm_compute in Hof; lia|..];
    (destruct u; [vm_compute in Hof; lia|..]); simpl; eauto.
Qed.

Lemma cell_id_large n i :
  10 <= n ->
  exists a rest,
    slice_0_1 (cell_id n i) = String a "" /\
    slice_from 2 (cell_id n i) = rest +:+ String "-" (decimal i).
Proof.
  intros (a & b & rest & Hdec)%decimal_two_digits.
  exists a, rest. unfold cell_id. by rewrite Hdec.
Qed.

(** ** [handleClick] *)

Lemma handleClick_no_category target w :
  (forall c category, array_get (categories w) (slice_0_1 (el_id target))
                      <> ElementAt c category) ->
  handleClick target w = (Throw TypeError, w).
Proof.
  intros Hno. unfold handleClick.
  by destruct (array_get (categories w) (slice_0_1 (el_id target))) eqn:H;
    [edestruct Hno|..].
Qed.

Lemma handleClick_no_clue target w :
  (forall category, array_get (clues category) (slice_from 2 (el_id target))
                    = Undefined) ->
  handleClick target w = (Throw TypeError, w).
Proof.
  intros Hno. unfold handleClick.
  destruct (array_get (categories w) (slice_0_1 (el_id target))); [|done..].
  by rewrite Hno.
Qed.

Lemma handleClick_cell target w c k :
  el_id target = cell_id c k -> c < 10 ->
  handleClick target w
  = match clue_at c k w with
    | None => (Throw TypeError, w)
    | Some clue =>
        if truthy (get_prop clue "showing") then
          if loose_eq_str (get_prop clue "showing") "question" then
            match get_prop clue "answer" with
            | VStr answer =>
                (Ok (Td (el_id target) (replace_first backslash answer)
                        "1.5vh" (color target) (webkitTextStroke target)),
                 set_showing c k (VStr "answer") w)
            | _ => (Throw TypeError, w)
            end
          else (Ok target, w)
        else
          (Ok (Td (el_id target) (dom_string (get_prop clue "question"))
                  "1vh" "white" "0"),
           set_showing c k (VStr "question") w)
    end.
Proof.
  intros Hid Hc. unfold handleClick, clue_at. rewrite Hid.
  destruct (cell_id_small c k Hc) as [-> ->].
  rewrite array_get_decimal.
  destruct (categories w !! c) as [cat|]; simpl; [|done].
  rewrite array_get_decimal.
  by destruct (clues cat !! k).
Qed.

Lemma clue_at_set_showing c k v w :
  clue_at c k (set_showing c k v w) = insert "showing" v <$> clue_at c k w.
Proof.
  unfold clue_at, set_showing. simpl.
  rewrite list_lookup_alter_eq.
  destruct (categories w !! c) as [cat|]; simpl; [|done].
  by rewrite list_lookup_alter_eq.
Qed.

Lemma clue_at_set_showing_ne c k c' k' v w :
  (c, k) <> (c', k') ->
  clue_at c' k' (set_showing c k v w) = clue_at c' k' w.
Proof.
  intros Hne. unfold clue_at, set_showing. simpl.
  destruct (decide (c = c')) as [<-|Hc].
  - rewrite list_lookup_alter_eq.
    destruct (categories w !! c) as [cat|]; simpl; [|done].
    rewrite list_lookup_alter_ne; [done | congruence].
  - by rewrite list_lookup_alter_ne.
Qed.

Lemma revealState_insert_question clue :
  revealState (<["showing" := VStr "question"]> clue) = Question.
Proof. unfold revealState, get_prop. by rewrite lookup_insert_eq. Qed.

Lemma revealState_insert_answer clue :
  revealState (<["showing" := VStr "answer"]> clue) = Answer.
Proof. unfold revealState, get_prop. by rewrite lookup_insert_eq. Qed.

Lemma get_prop_insert_ne (clue : jsobj) k k' v :
  k <> k' -> get_prop (<[k := v]> clue) k' = get_prop clue k'.
Proof. intros Hne. unfold get_prop. by rewrite lookup_insert_ne. Qed.

Lemma array_get_Element {A} (arr : list A) key i a :
  array_get arr key = ElementAt i a -> arr !! i = Some a.
Proof.
  unfold array_get. destruct (array_index key) as [j|].
  - destruct (arr !! j) eqn:Hj; [|done]. by intros [= <- <-].
  - by case_bool_decide.
Qed.

Lemma replace_first_absent c s : occurs c s = false -> replace_first c s = s.
Proof.
  induction s as [|a s IH]; simpl; [done|].
  destruct (Ascii.eqb a c); simpl; [done|]. intros H. by rewrite IH.
Qed.

(** Removing the first occurrence removes them all exactly when none is
    left. *)
Lemma replace_first_strip_all c s :
  replace_first c s = strip_all c s <-> occurs c (replace_first c s) = false.
Proof.
  assert (Hclean : forall t, occurs c t = false -> strip_all c t = t).
  { induction t as [|a t IH]; simpl; [done|].
    destruct (Ascii.eqb a c); simpl; [done|]. intros H. by rewrite IH. }
  assert (Hnone : forall t, occurs c (strip_all c t) = false).
  { induction t as [|a t IH]; simpl; [done|].
    destruct (Ascii.eqb a c) eqn:Ha; simpl; [done|]. by rewrite Ha. }
  split.
  - intros ->. apply Hnone.
  - induction s as [|a s IH]; simpl; [done|].
    destruct (Ascii.eqb a c) eqn:Ha; simpl.
    + intros H. by rewrite Hclean.
    + rewrite Ha. simpl. intros H. by rewrite IH.
Qed.

(** No click takes the reveal state of any clue back. *)
Lemma handleClick_monotone target w c k clue :
  clue_at c k w = Some clue ->
  exists clue',
    clue_at c k (snd (handleClick target w)) = Some clue' /\
    rank (revealState clue) <= rank (revealState clue').
Proof.
  intros Hclue.
  assert (Hsame : exists clue', clue_at c k w = Some clue' /\
                    rank (revealState clue) <= rank (revealState clue'))
    by (by exists clue).
  assert (Hset : forall c0 k0 v clue0,
            clue_at c0 k0 w = Some clue0 ->
            rank (revealState clue0) <= rank (revealState (<["showing" := v]> clue0)) ->
            exists clue',
              clue_at c k (set_showing c0 k0 v w) = Some clue' /\
              rank (revealState clue) <= rank (revealState clue')).
  { intros c0 k0 v clue0 Hclue0 Hrank.
    destruct (decide ((c0, k0) = (c, k))) as [[= -> ->]|Hne].
    - rewrite clue_at_set_showing, Hclue. simpl. eexists. split; [done|].
      rewrite Hclue in Hclue0. by injection Hclue0 as <-.
    - by rewrite clue_at_set_showing_ne. }
  unfold handleClick.
  destruct (array_get (categories w) _) as [c0 cat| |] eqn:Hcat; [|done..].
  apply array_get_Element in Hcat.
  destruct (array_get (clues cat) _) as [k0 clue0| |] eqn:Hk; [|done|].
  - apply array_get_Element in Hk.
    assert (Hclue0 : clue_at c0 k0 w = Some clue0)
      by (unfold clue_at; by rewrite Hcat).
    destruct (truthy (get_prop clue0 "showing")) eqn:Htruthy.
    + destruct (loose_eq_str (get_prop clue0 "showing") "question"); [|done].
      destruct (get_prop clue0 "answer"); try done. simpl.
      apply (Hset _ _ _ clue0); [done|].
      rewrite revealState_insert_answer. destruct (revealState clue0); simpl; lia.
    + simpl. apply (Hset _ _ _ clue0); [done|].
      unfold revealState at 1. rewrite Htruthy. simpl. lia.
  - destruct (truthy _); [by destruct (loose_eq_str _ _)|].
    simpl. by destruct (String.eqb _ _).
Qed.

(** C2: clicks on the cell of a hidden clue go through a fixed sequence.
    The first call of handleClick shows the question in the default style
    (font size 1vh, white, no text stroke) and moves the clue from Hidden to
    Question; the second shows the answer text (the answer as the script
    displays it: its first backslash removed, hence the answer itself when it
    has none) in the emphasized style (font size 1.5vh) and moves the clue to
    Answer; every further call changes neither the cell nor the board.  After
    n clicks the state is Hidden, Question, Answer, Answer, ...: it never
    decreases. *)
Theorem reveal_sequence
    (w : world) (c k : nat) (clue : jsobj) (q a : string) (target : element) :
  c < 10 ->
  el_id target = cell_id c k ->
  clue_at c k w = Some clue ->
  revealState clue = Hidden ->
  get_prop clue "question" = VStr q ->
  get_prop clue "answer" = VStr a ->
  let shown_q := Td (el_id target) q "1vh" "white" "0" in
  let shown_a :=
    Td (el_id target) (replace_first backslash a) "1.5vh" "white" "0" in
  let w1 := set_showing c k (VStr "question") w in
  let w2 := set_showing c k (VStr "answer") w1 in
  handleClick target w = (Ok shown_q, w1) /\
  handleClick shown_q w1 = (Ok shown_a, w2) /\
  (occurs backslash a = false -> innerHTML shown_a = a) /\
  (forall n, click_times n shown_a w2 = (Ok shown_a, w2)) /\
  (forall n, click_times (2 + n) target w = (Ok shown_a, w2)) /\
  (forall n,
     revealState <$> clue_at c k (snd (click_times n target w))
     = Some (match n with 0 => Hidden | 1 => Question | _ => Answer end)) /\
  (forall n s s',
     revealState <$> clue_at c k (snd (click_times n target w)) = Some s ->
     revealState <$> clue_at c k (snd (click_times (S n) target w)) = Some s' ->
     rank s <= rank s').
Proof.
  intros Hc Hid Hclue Hhidden Hq Ha shown_q shown_a w1 w2.
  assert (Hstate1 : clue_at c k w1 = Some (<["showing" := VStr "question"]> clue))
    by (unfold w1; by rewrite clue_at_set_showing, Hclue).
  assert (Hstate2 : clue_at c k w2
                    = Some (<["showing" := VStr "answer"]>
                              (<["showing" := VStr "question"]> clue)))
    by (unfold w2; by rewrite clue_at_set_showing, Hstate1).
  assert (Hfirst : handleClick target w = (Ok shown_q, w1)).
  { rewrite (handleClick_cell _ _ c k) by done. rewrite Hclue.
    unfold revealState in Hhidden.
    destruct (truthy (get_prop clue "showing"));
      [by destruct (loose_eq_str _ _)|].
    by rewrite Hq. }
  assert (Hsecond : handleClick shown_q w1 = (Ok shown_a, w2)).
  { rewrite (handleClick_cell _ _ c k) by done. rewrite Hstate1.
    unfold get_prop at 1 2. rewrite lookup_insert_eq. simpl.
    by rewrite get_prop_insert_ne, Ha. }
  assert (Hthird : handleClick shown_a w2 = (Ok shown_a, w2)).
  { rewrite (handleClick_cell _ _ c k) by done. rewrite Hstate2.
    unfold get_prop at 1 2. by rewrite lookup_insert_eq. }
  assert (Hrest : forall n, click_times n shown_a w2 = (Ok shown_a, w2)).
  { induction n as [|n IH]; [done|]. simpl. unfold bind. by rewrite Hthird. }
  assert (Hfrom2 : forall n, click_times (2 + n) target w = (Ok shown_a, w2)).
  { intros n. simpl. unfold bind at 1. rewrite Hfirst.
    unfold bind at 1. by rewrite Hsecond. }
  assert (Hstates : forall n,
            revealState <$> clue_at c k (snd (click_times n target w))
            = Some (match n with 0 => Hidden | 1 => Question | _ => Answer end)).
  { intros [|[|n]].
    - simpl. rewrite Hclue. simpl. by rewrite Hhidden.
    - simpl. unfold bind. rewrite Hfirst. simpl.
      rewrite Hstate1. simpl. by rewrite revealState_insert_question.
    - change (S (S n)) with (2 + n). rewrite (Hfrom2 n). simpl.
      rewrite Hstate2. simpl. by rewrite revealState_insert_answer. }
  do 2 (split; [done|]).
  split; [intros Hnone; simpl; by apply replace_first_absent|].
  do 3 (split; [done|]).
  intros n s s'. rewrite !Hstates. intros [= <-] [= <-].
  destruct n as [|[|n]]; simpl; lia.
Qed.

Lemma reveal_sequence_witness :
  let w := played_world in
  let clue := prepare_clue (source_clue 5 "q5" "a5") in
  let target := new_cell 0 2 in
  0 < 10 /\
  el_id target = cell_id 0 2 /\
  clue_at 0 2 w = Some clue /\
  revealState clue = Hidden /\
  get_prop clue "question" = VStr "q5" /\
  get_prop clue "answer" = VStr "a5" /\
  let shown_q := Td (el_id target) "q5" "1vh" "white" "0" in
  let shown_a :=
    Td (el_id target) (replace_first backslash "a5") "1.5vh" "white" "0" in
  let w1 := set_showing 0 2 (VStr "question") w in
  let w2 := set_showing 0 2 (VStr "answer") w1 in
  handleClick target w = (Ok shown_q, w1) /\
  handleClick shown_q w1 = (Ok shown_a, w2) /\
  (occurs backslash "a5" = false -> innerHTML shown_a = "a5") /\
  (forall n, click_times n shown_a w2 = (Ok shown_a, w2)) /\
  (forall n, click_times (2 + n) target w = (Ok shown_a, w2)) /\
  (forall n,
     revealState <$> clue_at 0 2 (snd (click_times n target w))
     = Some (match n with 0 => Hidden | 1 => Question | _ => Answer end)) /\
  (forall n s s',
     revealState <$> clue_at 0 2 (snd (click_times n target w)) = Some s ->
     revealState <$> clue_at 0 2 (snd (click_times (S n) target w)) = Some s' ->
     rank s <= rank s').
Proof.
  intros w clue target.
  assert (Hc : 0 < 10) by lia.
  assert (Hid : el_id target = cell_id 0 2) by reflexivity.
  assert (Hclue : clue_at 0 2 w = Some clue) by (vm_compute; reflexivity).
  assert (Hhidden : revealState clue = Hidden) by (vm_compute; reflexivity).
  assert (Hq : get_prop clue "question" = VStr "q5") by (vm_compute; reflexivity).
  assert (Ha : get_prop clue "answer" = VStr "a5") by (vm_compute; reflexivity).
  do 6 (split; [assumption|]).
  exact (reveal_sequence w 0 2 clue "q5" "a5" target Hc Hid Hclue Hhidden Hq Ha).
Defined.

(** C7: on a clue in the Question state whose answer is a, backslash, b,
    backslash, c, handleClick shows a, b, backslash, c: only the first escape
    marker is removed, the second one stays in the text shown, which is not
    the answer with all its markers removed. *)
Theorem handleClick_strips_first_marker_only :
  revealState <$> clue_at 0 0 escaped_world = Some Question /\
  (fun clue => get_prop clue "answer") <$> clue_at 0 0 escaped_world
    = Some (VStr escaped_answer) /\
  fst (handleClick (new_cell 0 0) escaped_world)
    = Ok (Td "0-0" (String "a" (String "b" (String backslash "c")))
            "1.5vh" "" "") /\
  strip_all backslash escaped_answer = "abc" /\
  occurs backslash (replace_first backslash escaped_answer) = true /\
  replace_first backslash escaped_answer <> strip_all backslash escaped_answer.
Proof.
  split; [vm_compute; reflexivity|]. split; [vm_compute; reflexivity|].
  split; [vm_compute; reflexivity|]. split; [vm_compute; reflexivity|].
  split; [vm_compute; reflexivity|]. vm_compute. discriminate.
Qed.

(** C9, as the claim states it, fails: on the board of a game, the cell
    identifier of column 6 (there are columns 0 to 5) addresses no clue, and
    handleClick throws the TypeError of reading a property of undefined, not
    an IndexError. *)
Lemma handleClick_throws_TypeError :
  length (categories played_world) = 6 /\
  clue_at 6 0 played_world = None /\
  handleClick (new_cell 6 0) played_world = (Throw TypeError, played_world) /\
  fst (handleClick (new_cell 6 0) played_world) <> Throw IndexError.
Proof.
  assert (Hrun : handleClick (new_cell 6 0) played_world
                 = (Throw TypeError, played_world))
    by (vm_compute; reflexivity).
  split; [vm_compute; reflexivity|]. split; [vm_compute; reflexivity|].
  split; [done|]. by rewrite Hrun.
Qed.

(** C9, amended: for every pair of indices (categoryIndex, clueIndex) that
    addresses no clue of the board, handleClick on the cell with the
    identifier of that pair throws a TypeError (the run-time error of reading
    a property of undefined), never an IndexError, and leaves the board and
    the rest of the world as they were: no other cell is addressed in its
    place. *)
Theorem handleClick_out_of_range (target : element) (w : world) (c k : nat) :
  el_id target = cell_id c k ->
  clue_at c k w = None ->
  handleClick target w = (Throw TypeError, w) /\
  fst (handleClick target w) <> Throw IndexError.
Proof.
  intros Hid Hnone.
  assert (Hrun : handleClick target w = (Throw TypeError, w)).
  { destruct (Nat.lt_ge_cases c 10) as [Hc|Hc].
    - rewrite (handleClick_cell _ _ c k) by done. by rewrite Hnone.
    - destruct (cell_id_large c k Hc) as (a & rest & _ & Hclu).
      apply handleClick_no_clue. intros cat. rewrite Hid, Hclu.
      apply array_get_dash. }
  split; [done|]. by rewrite Hrun.
Qed.

Lemma handleClick_out_of_range_witness :
  el_id (new_cell 0 5) = cell_id 0 5 /\
  clue_at 0 5 played_world = None /\
  handleClick (new_cell 0 5) played_world = (Throw TypeError, played_world) /\
  fst (handleClick (new_cell 0 5) played_world) <> Throw IndexError.
Proof.
  assert (Hid : el_id (new_cell 0 5) = cell_id 0 5) by reflexivity.
  assert (Hnone : clue_at 0 5 played_world = None) by (vm_compute; reflexivity).
  do 2 (split; [assumption|]).
  exact (handleClick_out_of_range (new_cell 0 5) played_world 0 5 Hid Hnone).
Defined.

(** * Further properties *)

(** ** The requests *)

(** X1: getCategoryIds calls Math.random once and asks the catalogue for
    numCategories categories at an offset below 20000; it returns the response
    as it is, or throws a TransportError when the request fails, and changes
    nothing else. *)
Theorem getCategoryIds_request (env : environment) (numCategories : nat) (w : world) :
  let offset := floor_scaled (Math_random env (rand_calls w)) 20000 in
  (offset < 20000)%N /\
  getCategoryIds env numCategories w
  = (match api_categories env numCategories offset with
     | Some data => Ok data
     | None => Throw TransportError
     end,
     after_draws 1 w).
Proof.
  intros offset. split; [apply floor_scaled_lt; lia|].
  unfold getCategoryIds, bind, random_below, after_draws. fold offset.
  rewrite Nat.add_1_r. by destruct (api_categories env numCategories offset).
Qed.

(** X2: getCategory calls Math.random once for every clue beyond five in the
    response, and not at all when the request fails; it changes nothing else in
    the world: the board and the page are as before. *)
Theorem getCategory_draws (env : environment) (catTitle catId : jsval) (w : world) :
  snd (getCategory env catTitle catId w)
  = after_draws
      (match api_clues env (ToString catId) with
       | Some data => length data - 5
       | None => 0
       end) w.
Proof.
  destruct (api_clues env (ToString catId)) as [data|] eqn:Hdata.
  - destruct (Nat.lt_ge_cases (length data) 5) as [Hlt|Hge].
    + rewrite (getCategory_short env _ _ data) by done. simpl.
      replace (length data - 5) with 0 by lia. by rewrite after_draws_0.
    + by rewrite (getCategory_enough env _ _ data).
  - rewrite getCategory_offline by done. simpl. by rewrite after_draws_0.
Qed.

(** X3: a response of exactly five clues is kept whole: getCategory returns
    the five clues in the order of the response, each reduced to its question
    and answer, without calling Math.random. *)
Theorem getCategory_exactly_five
    (env : environment) (catTitle catId : jsval) (data : list jsobj) (w : world) :
  api_clues env (ToString catId) = Some data ->
  length data = 5 ->
  getCategory env catTitle catId w
  = (Ok (Some (Category catTitle (prepare_clue <$> data))), w).
Proof.
  intros Hdata Hlen.
  rewrite (getCategory_enough env _ _ data) by (done || lia).
  unfold kept_clues. rewrite Hlen. simpl. by rewrite after_draws_0.
Qed.

Lemma getCategory_exactly_five_witness :
  api_clues five_env (ToString (VNum 1)) = Some (take 5 eight_clues) /\
  length (take 5 eight_clues) = 5 /\
  getCategory five_env (VStr "A") (VNum 1) initial_world
  = (Ok (Some (Category (VStr "A") (prepare_clue <$> take 5 eight_clues))),
     initial_world).
Proof.
  split; [reflexivity|]. split; [reflexivity|].
  apply (getCategory_exactly_five five_env (VStr "A") (VNum 1)
           (take 5 eight_clues) initial_world); reflexivity.
Defined.

(** ** The table and its cell identifiers *)

Lemma header_cells_enough (n i : nat) (cs : list category) :
  i + n <= length cs ->
  header_cells n i cs = Some ((fun c => dom_string (title c)) <$> take n (drop i cs)).
Proof.
  revert i. induction n as [|n IH]; intros i Hle; simpl; [done|].
  destruct (cs !! i) as [c|] eqn:Hc.
  - rewrite IH by lia. simpl. by rewrite (drop_S _ _ _ Hc).
  - apply lookup_ge_None in Hc. lia.
Qed.

Lemma header_cells_short (n i : nat) (cs : list category) :
  length cs < i + n -> 0 < n -> header_cells n i cs = None.
Proof.
  revert i. induction n as [|n IH]; intros i Hlt Hn; simpl; [lia|].
  destruct (cs !! i) as [c|] eqn:Hc; [|done].
  apply lookup_lt_Some in Hc.
  rewrite IH; [done | lia | lia].
Qed.

(** X4: fillTable needs six categories.  With fewer it throws a TypeError and
    leaves the page as it is; otherwise it appends one header row with the
    titles of the first six categories and five body rows of six cells, the
    cell of column n in row i carrying the identifier n-i; the categories are
    never changed. *)
Theorem fillTable_spec (w : world) :
  fillTable w
  = (if (length (categories w) <? 6)%nat then (Throw TypeError, w)
     else
       (Ok tt,
        set_document
          (Page (thead (document w)
                 ++ [(fun c => dom_string (title c)) <$> take 6 (categories w)])
                (tbody (document w) ++ (body_row <$> seq 0 5))
                (jeopardy_shown (document w)) (spinner_shown (document w))
                (start_text (document w))) w)) /\
  categories (snd (fillTable w)) = categories w /\
  (forall i n, i < 5 -> n < 6 ->
     (row ← (body_row <$> seq 0 5) !! i; row !! n)
     = Some (Td (cell_id n i) ("$" +:+ decimal (i + 1) +:+ "00") "" "" "")).
Proof.
  split; [|split].
  - unfold fillTable. destruct (length (categories w) <? 6)%nat eqn:Hlen.
    + apply Nat.ltb_lt in Hlen. by rewrite header_cells_short by lia.
    + apply Nat.ltb_ge in Hlen. rewrite header_cells_enough by (simpl; lia).
      by rewrite drop_0.
  - apply fillTable_categories.
  - intros i n Hi Hn. rewrite list_lookup_fmap, lookup_seq_lt by done. simpl.
    unfold body_row. rewrite list_lookup_fmap, lookup_seq_lt by done. done.
Qed.

Lemma uint_of_string_no_dash s :
  occurs "-" s = true -> NilEmpty.uint_of_string s = None.
Proof.
  induction s as [|a s IH]; simpl; [done|].
  destruct (Ascii.eqb_spec a "-") as [->|Hne]; simpl.
  - intros _. by destruct (NilEmpty.uint_of_string s).
  - intros H. by rewrite IH.
Qed.

Lemma decimal_no_dash n : occurs "-" (decimal n) = false.
Proof.
  destruct (occurs "-" (decimal n)) eqn:Hocc; [|done].
  pose proof (NilZero.usu (Nat.to_uint n) (to_uint_nonnil n)) as Hparse.
  fold (decimal n) in Hparse. unfold NilZero.uint_of_string in Hparse.
  rewrite uint_of_string_no_dash in Hparse by done. by destruct (decimal n).
Qed.

Lemma decimal_inj n n' : decimal n = decimal n' -> n = n'.
Proof.
  intros H. apply (f_equal array_index) in H.
  rewrite !array_index_decimal in H. by injection H.
Qed.

Lemma split_at_dash s s' t t' :
  occurs "-" s = false -> occurs "-" s' = false ->
  s +:+ String "-" t = s' +:+ String "-" t' -> s = s' /\ t = t'.
Proof.
  revert s'. induction s as [|a s IH]; intros [|a' s']; simpl.
  - intros _ _ [= ->]. done.
  - intros _ Ha' [= <- _]. done.
  - intros Ha _ [= -> _]. done.
  - intros [Ha Hs]%orb_false_elim [Ha' Hs']%orb_false_elim [= -> Heq].
    destruct (IH s' Hs Hs' Heq) as [-> ->]. done.
Qed.

(** X5: the identifier fillTable gives a cell and the two slices handleClick
    takes of it agree for one-digit columns: the first slice is the key of
    column n and the second the key of row i.  From column 10 on they do not:
    the second slice has a dash in it and is the key of no element. *)
Theorem cell_id_round_trip (n i : nat) :
  if (n <? 10)%nat then
    array_index (slice_0_1 (cell_id n i)) = Some n /\
    array_index (slice_from 2 (cell_id n i)) = Some i
  else
    array_index (slice_from 2 (cell_id n i)) = None /\
    forall A (arr : list A), array_get arr (slice_from 2 (cell_id n i)) = Undefined.
Proof.
  destruct (n <? 10)%nat eqn:Hn.
  - apply Nat.ltb_lt in Hn. destruct (cell_id_small n i Hn) as [-> ->].
    by rewrite !array_index_decimal.
  - apply Nat.ltb_ge in Hn.
    destruct (cell_id_large n i Hn) as (a & rest & _ & ->).
    split; [apply array_index_dash|]. intros A arr. apply array_get_dash.
Qed.

(** X6: the cells of the table have identifiers of their own: two pairs of
    column and row get the same identifier only when they are the same
    pair. *)
Theorem cell_id_inj (n i n' i' : nat) :
  cell_id n i = cell_id n' i' <-> n = n' /\ i = i'.
Proof.
  split; [|by intros [-> ->]].
  unfold cell_id. change ("-" +:+ decimal i) with (String "-" (decimal i)).
  change ("-" +:+ decimal i') with (String "-" (decimal i')).
  intros [Hn Hi]%split_at_dash; [|apply decimal_no_dash..].
  split; by apply decimal_inj.
Qed.

(** ** What a click changes *)

(** A click leaves the world as it is, or sets the [showing] of one clue to
    a value that does not lower its reveal state, or stores a [showing] on an
    inherited array member. *)
Lemma handleClick_effect target w :
  snd (handleClick target w) = w \/
  (exists c k clue v,
     clue_at c k w = Some clue /\
     rank (revealState clue) <= rank (revealState (<["showing" := v]> clue)) /\
     snd (handleClick target w) = set_showing c k v w) \/
  (exists key,
     snd (handleClick target w)
     = World (categories w) (document w)
             (<[key := VStr "question"]> (member_showing w)) (rand_calls w)).
Proof.
  unfold handleClick.
  destruct (array_get (categories w) _) as [c cat| |] eqn:Hcat; [|by left..].
  apply array_get_Element in Hcat.
  destruct (array_get (clues cat) _) as [k clue| |] eqn:Hk; [|by left|].
  - apply array_get_Element in Hk.
    assert (Hclue : clue_at c k w = Some clue)
      by (unfold clue_at; by rewrite Hcat).
    destruct (truthy (get_prop clue "showing")) eqn:Htruthy.
    + destruct (loose_eq_str (get_prop clue "showing") "question"); [|by left].
      destruct (get_prop clue "answer"); try by left.
      right; left. exists c, k, clue, (VStr "answer"). split; [done|]. split; [|done].
      rewrite revealState_insert_answer. destruct (revealState clue); simpl; lia.
    + right; left. exists c, k, clue, (VStr "question"). split; [done|]. split; [|done].
      unfold revealState at 1. rewrite Htruthy. simpl. lia.
  - destruct (truthy _); [destruct (loose_eq_str _ _); by left|].
    simpl. destruct (String.eqb _ _); [by left|]. right; right. by eexists.
Qed.


Lemma length_clues_set_showing c k v w :
  (fun cat => length (clues cat)) <$> categories (set_showing c k v w)
  = (fun cat => length (clues cat)) <$> categories w.
Proof.
  unfold set_showing. simpl.
  rewrite (list_fmap_alter _ _ id); [by rewrite list_alter_id|].
  apply Forall_forall. intros cat _. simpl. by rewrite length_alter.
Qed.

Lemma clue_at_set_showing_frame c0 k0 v w c k :
  delete "showing" <$> clue_at c k (set_showing c0 k0 v w)
  = delete "showing" <$> clue_at c k w.
Proof.
  destruct (decide ((c0, k0) = (c, k))) as [[= -> ->]|Hne].
  - rewrite clue_at_set_showing. destruct (clue_at c k w); simpl; [|done].
    by rewrite delete_insert_eq.
  - by rewrite clue_at_set_showing_ne.
Qed.

(** X8: no click lowers the reveal state of any clue: whatever the target,
    a clue of the board is still there after handleClick, in a state of rank
    at least that before (Hidden below Question below Answer). *)
Theorem handleClick_never_hides
    (target : element) (w : world) (c k : nat) (clue : jsobj) :
  clue_at c k w = Some clue ->
  exists clue',
    clue_at c k (snd (handleClick target w)) = Some clue' /\
    rank (revealState clue) <= rank (revealState clue').
Proof. apply handleClick_monotone. Qed.

Lemma handleClick_never_hides_witness :
  clue_at 0 0 escaped_world
  = Some (<["showing" := VStr "question"]>
            (prepare_clue (source_clue 0 "q" escaped_answer))) /\
  exists clue',
    clue_at 0 0 (snd (handleClick (new_cell 0 0) escaped_world)) = Some clue' /\
    rank (revealState (<["showing" := VStr "question"]>
                         (prepare_clue (source_clue 0 "q" escaped_answer))))
    <= rank (revealState clue').
Proof.
  split; [reflexivity|].
  apply (handleClick_never_hides (new_cell 0 0) escaped_world 0 0).
  reflexivity.
Defined.

(** X9: handleClick returns or throws a TypeError, nothing else; when it
    throws, the world is as it was, and when it returns, the target has kept
    its identifier. *)
Theorem handleClick_outcome (target : element) (w : world) :
  match handleClick target w with
  | (Ok target', _) => el_id target' = el_id target
  | (Throw e, w') => e = TypeError /\ w' = w
  | (Diverge, _) => False
  end.
Proof.
  unfold handleClick.
  destruct (array_get (categories w) _) as [c cat| |]; [|done..].
  destruct (array_get (clues cat) _) as [k clue| |]; [|done|].
  - destruct (truthy _); [|done].
    destruct (loose_eq_str _ _); [|done].
    by destruct (get_prop clue "answer").
  - destruct (truthy _); [by destruct (loose_eq_str _ _)|done].
Qed.

(** ** Clicks that cannot fail *)

Lemma handleClick_keeps_answers target w :
  answers_are_strings w -> answers_are_strings (snd (handleClick target w)).
Proof.
  intros Hw c k clue' Hclue'.
  destruct (handleClick_effect target w)
    as [Heq | [(c0 & k0 & clue0 & v & _ & _ & Heq) | (key & Heq)]];
    rewrite Heq in Hclue'.
  - by apply (Hw c k).
  - pose proof (clue_at_set_showing_frame c0 k0 v w c k) as Hframe.
    rewrite Hclue' in Hframe.
    destruct (clue_at c k w) as [clue|] eqn:Hclue; [|done].
    injection Hframe as Hframe.
    destruct (Hw c k clue Hclue) as [a Ha]. exists a.
    rewrite <- Ha. unfold get_prop.
    rewrite <- (lookup_delete_ne clue' "showing" "answer") by done.
    rewrite Hframe. by rewrite lookup_delete_ne.
  - by apply (Hw c k).
Qed.

Lemma handleClick_keeps_addresses target w t :
  addresses_clue w t -> addresses_clue (snd (handleClick target w)) t.
Proof.
  intros (c & k & Hc & Hid & [clue Hclue]). exists c, k. do 2 (split; [done|]).
  destruct (handleClick_monotone target w c k clue Hclue) as (clue' & -> & _).
  by eexists.
Qed.

Lemma handleClick_returns target w :
  answers_are_strings w -> addresses_clue w target ->
  exists target', fst (handleClick target w) = Ok target'.
Proof.
  intros Hw (c & k & Hc & Hid & [clue Hclue]).
  rewrite (handleClick_cell _ _ c k) by done. rewrite Hclue.
  destruct (Hw c k clue Hclue) as [a ->].
  destruct (truthy _); [|by eexists].
  destruct (loose_eq_str _ _); by eexists.
Qed.

Lemma click_each_safe (w : world) (targets : list element) :
  answers_are_strings w ->
  Forall (addresses_clue w) targets ->
  fst (click_each targets w) = Ok tt.
Proof.
  revert w. induction targets as [|target rest IH]; intros w Hw Hall; [done|].
  apply Forall_cons in Hall as [Htarget Hrest].
  simpl. unfold bind.
  destruct (handleClick_returns target w Hw Htarget) as [target' Hok].
  pose proof (handleClick_keeps_answers target w Hw) as Hw'.
  assert (Hrest' : Forall (addresses_clue (snd (handleClick target w))) rest).
  { eapply Forall_impl; [done|]. intros t. apply handleClick_keeps_addresses. }
  destruct (handleClick target w) as [r w']. simpl in *. subst r.
  by apply IH.
Qed.

(** ** What a game start builds *)

Section Start.

Variable env : environment.

Lemma acquire_prepared candidates w r w' :
  acquire env candidates w = (r, w') ->
  exists new, categories w' = categories w ++ new /\ Forall prepared new.
Proof.
  revert w. induction candidates as [|c rest IH]; intros w; simpl.
  - destruct (length (categories w) <? 6)%nat; intros [= <- <-];
      exists []; by rewrite app_nil_r.
  - destruct (length (categories w) <? 6)%nat.
    2: { intros [= <- <-]. exists []. by rewrite app_nil_r. }
    unfold bind at 1. unfold bind at 1.
    destruct (api_clues env (ToString (get_prop c "id"))) as [data|] eqn:Hdata.
    + destruct (Nat.lt_ge_cases (length data) 5) as [Hlt|Hge].
      * rewrite (getCategory_short env _ _ data) by done. unfold ret. apply IH.
      * rewrite (getCategory_enough env _ _ data) by done. unfold modify.
        intros (new & Hcs & Hnew)%IH. simpl in Hcs.
        eexists (_ :: new). rewrite Hcs, <- app_assoc. split; [done|].
        constructor; [|done]. by eexists.
    + rewrite getCategory_offline by done.
      intros [= <- <-]. exists []. by rewrite app_nil_r.
Qed.

(** The board titles are the titles of the accepted candidates, in the order
    of the candidate list. *)
Lemma acquire_titles candidates w w' :
  acquire env candidates w = (Ok tt, w') ->
  title <$> categories w'
  = (title <$> categories w)
    ++ take (6 - length (categories w))
         ((fun c => get_prop c "title") <$> List.filter (accepted env) candidates).
Proof.
  revert w. induction candidates as [|c rest IH]; intros w; simpl.
  - destruct (length (categories w) <? 6)%nat eqn:Hlen; intros [= <-].
    by rewrite take_nil, app_nil_r.
  - destruct (length (categories w) <? 6)%nat eqn:Hlen.
    2: { intros [= <-]. apply Nat.ltb_ge in Hlen.
         replace (6 - length (categories w)) with 0 by lia.
         by rewrite take_0, app_nil_r. }
    apply Nat.ltb_lt in Hlen.
    unfold bind at 1. unfold bind at 1. unfold accepted at 1.
    destruct (api_clues env (ToString (get_prop c "id"))) as [data|] eqn:Hdata.
    + destruct (Nat.lt_ge_cases (length data) 5) as [Hlt|Hge].
      * rewrite (getCategory_short env _ _ data) by done. unfold ret.
        assert (Hle : (5 <=? length data)%nat = false) by (apply Nat.leb_gt; lia).
        rewrite Hle. apply IH.
      * rewrite (getCategory_enough env _ _ data) by done. unfold modify.
        assert (Hle : (5 <=? length data)%nat = true) by (apply Nat.leb_le; lia).
        rewrite Hle. intros ->%IH. simpl.
        rewrite fmap_app, length_app, <- app_assoc. simpl.
        replace (6 - length (categories w))
          with (S (6 - (length (categories w) + 1))) by lia.
        done.
    + by rewrite getCategory_offline.
Qed.

(** With every candidate served and enough of them acceptable, the loop
    returns. *)
Lemma acquire_enough candidates w :
  Forall (served env) candidates ->
  6 <= length (categories w) + length (List.filter (accepted env) candidates) ->
  fst (acquire env candidates w) = Ok tt.
Proof.
  revert w. induction candidates as [|c rest IH]; intros w Hserved Hmany; simpl in *.
  - assert (Hlen : (length (categories w) <? 6)%nat = false)
      by (apply Nat.ltb_ge; lia).
    by rewrite Hlen.
  - destruct (length (categories w) <? 6)%nat eqn:Hlen; [|done].
    apply Forall_cons in Hserved as [Hc Hrest].
    unfold bind at 1. unfold bind at 1. unfold accepted in Hmany at 1.
    unfold served in Hc.
    destruct (api_clues env (ToString (get_prop c "id"))) as [data|] eqn:Hdata; [|done].
    destruct (Nat.lt_ge_cases (length data) 5) as [Hlt|Hge].
    + rewrite (getCategory_short env _ _ data) by done. unfold ret.
      assert (Hle : (5 <=? length data)%nat = false) by (apply Nat.leb_gt; lia).
      rewrite Hle in Hmany. by apply IH.
    + rewrite (getCategory_enough env _ _ data) by done. unfold modify.
      assert (Hle : (5 <=? length data)%nat = true) by (apply Nat.leb_le; lia).
      rewrite Hle in Hmany. simpl in Hmany.
      apply IH; [done|]. simpl. rewrite length_app. simpl. lia.
Qed.

Lemma body_cells (cell : element) :
  cell ∈ mjoin (body_row <$> seq 0 5) ->
  exists n i, n < 6 /\ i < 5 /\ cell = new_cell n i.
Proof.
  intros (row & Hcell & (i' & -> & Hi')%list_elem_of_fmap)%list_elem_of_join.
  apply elem_of_seq in Hi'. unfold body_row in Hcell.
  apply list_elem_of_fmap in Hcell as (n & -> & Hn%elem_of_seq).
  exists n, i'. split; [lia|]. split; [lia|done].
Qed.

(** What a run of [setupAndStart] does to the page and the board. *)
Lemma setupAndStart_built w r w' :
  setupAndStart env w = (r, w') ->
  (exists new, categories w' = categories w ++ new /\ Forall prepared new) /\
  match r with
  | Ok _ =>
      document w'
      = Page (thead (document w)
              ++ [(fun c => dom_string (title c)) <$> take 6 (categories w')])
             (tbody (document w) ++ (body_row <$> seq 0 5))
             (jeopardy_shown (document w)) (spinner_shown (document w))
             (start_text (document w))
  | _ => document w' = document w
  end.
Proof.
  unfold setupAndStart, getCategoryIds. unfold bind at 1. unfold bind at 1.
  unfold random_below.
  destruct (api_categories env 18 _) as [candidates|]; simpl.
  - unfold bind.
    destruct (acquire env candidates _) as [r1 w1] eqn:Hacq.
    pose proof (acquire_prepared _ _ _ _ Hacq) as Hprep.
    apply acquire_result in Hacq as (Hdoc & _ & _ & _ & _ & Hr).
    simpl in Hprep, Hdoc.
    destruct r1 as [[]|e|]; intros [= <- <-]; [|done..].
    rewrite fillTable_categories. split; [done|].
    unfold fillTable. rewrite header_cells_enough by (simpl; lia).
    rewrite drop_0. simpl. by rewrite Hdoc.
  - intros [= <- <-]. split; [|done]. exists []. by rewrite app_nil_r.
Qed.

Lemma start_click_ok w w' :
  start_click env w = (Ok tt, w') ->
  length (categories w') = 6 /\
  Forall full (categories w') /\
  Forall prepared (categories w') /\
  document w'
  = Page [(fun c => dom_string (title c)) <$> categories w']
         (body_row <$> seq 0 5) true false "New Game".
Proof.
  intros Hrun.
  pose proof (start_click_result env w _ _ Hrun) as [Hfull Hlen].
  do 2 (split; [done|]). revert Hrun.
  unfold start_click, showLoadingView, modify. unfold bind at 1. unfold bind at 1.
  destruct (setupAndStart env _) as [r1 w1] eqn:Hsetup.
  apply setupAndStart_built in Hsetup as [(new & Hcs & Hnew) Hdoc].
  simpl in Hcs, Hdoc. subst new.
  destruct r1 as [[]|e|]; [|done..]. unfold hideLoadingView, modify.
  intros [= <-]. simpl in *. split; [done|].
  rewrite Hdoc. simpl. by rewrite take_ge by lia.
Qed.

Lemma start_click_stuck w e w' :
  start_click env w = (Throw e, w') ->
  document w' = Page [] [] false true "Loading".
Proof.
  unfold start_click, showLoadingView, modify. unfold bind at 1. unfold bind at 1.
  destruct (setupAndStart env _) as [r1 w1] eqn:Hsetup.
  apply setupAndStart_built in Hsetup as [_ Hdoc].
  destruct r1 as [[]|e1|]; [done| |done].
  by intros [= <- <-].
Qed.

End Start.

Lemma prepared_answers (w : world) :
  Forall prepared (categories w) -> answers_are_strings w.
Proof.
  intros Hall c k clue Hclue. unfold clue_at in Hclue.
  destruct (categories w !! c) as [cat|] eqn:Hcat; [|done]. simpl in Hclue.
  rewrite Forall_forall in Hall.
  destruct (Hall cat) as [srcs Hsrcs]; [by eapply list_elem_of_lookup_2|].
  rewrite Hsrcs, list_lookup_fmap in Hclue.
  destruct (srcs !! k) as [src|]; [|done]. injection Hclue as <-.
  eexists. unfold get_prop. by rewrite prepare_clue_answer.
Qed.

Lemma full_board_clue_at (w : world) (c k : nat) :
  length (categories w) = 6 -> Forall full (categories w) ->
  c < 6 -> k < 5 -> is_Some (clue_at c k w).
Proof.
  intros Hlen Hfull Hc Hk. unfold clue_at.
  destruct (lookup_lt_is_Some_2 (categories w) c) as [cat Hcat]; [lia|].
  rewrite Hcat. simpl. apply lookup_lt_is_Some_2.
  rewrite Forall_forall in Hfull.
  rewrite (Hfull cat); [done|]. by eapply list_elem_of_lookup_2.
Qed.

(** X10: on a board whose clues all have a string for an answer, clicks on
    cells that address a clue of the board never throw, in whatever order and
    however often the cells are clicked. *)
Theorem click_each_returns (w : world) (targets : list element) :
  answers_are_strings w ->
  Forall (addresses_clue w) targets ->
  fst (click_each targets w) = Ok tt.
Proof. apply click_each_safe. Qed.

Lemma click_each_returns_witness :
  answers_are_strings escaped_world /\
  Forall (addresses_clue escaped_world) [new_cell 0 0; new_cell 0 0; new_cell 0 0] /\
  fst (click_each [new_cell 0 0; new_cell 0 0; new_cell 0 0] escaped_world) = Ok tt.
Proof.
  assert (Hw : answers_are_strings escaped_world).
  { intros c k clue Hclue.
    destruct c as [|c]; [|by destruct c]. destruct k as [|k]; [|by destruct k].
    injection Hclue as <-. exists escaped_answer.
    rewrite get_prop_insert_ne by done. unfold get_prop.
    by rewrite prepare_clue_answer. }
  assert (Hall : Forall (addresses_clue escaped_world)
                   [new_cell 0 0; new_cell 0 0; new_cell 0 0]).
  { repeat first [apply Forall_nil_2 | apply Forall_cons_2];
      exists 0, 0; (split; [lia|]); (split; [reflexivity|]); by eexists. }
  do 2 (split; [assumption|]).
  exact (click_each_returns escaped_world _ Hw Hall).
Defined.

(** X17: setupAndStart always comes to an end, and it only ever appends to
    the board: the categories that were there stay in place, and every
    category it adds has exactly five clues, each a question/answer pair that
    getCategory made. *)
Theorem setupAndStart_appends (env : environment) (w : world) :
  fst (setupAndStart env w) <> Diverge /\
  exists new,
    categories (snd (setupAndStart env w)) = categories w ++ new /\
    Forall (fun cat =>
              length (clues cat) = 5 /\
              exists srcs, clues cat = prepare_clue <$> srcs) new.
Proof.
  destruct (setupAndStart env w) as [r w'] eqn:Hrun.
  pose proof (setupAndStart_result env w r w' Hrun) as (new & Hcs & Hfull & Hr).
  pose proof (setupAndStart_built env w r w' Hrun) as [(new' & Hcs' & Hprep) _].
  simpl. split; [by destruct r|].
  rewrite Hcs in Hcs'. apply app_inv_head in Hcs'. subst new'.
  exists new. split; [done|].
  rewrite Forall_forall in Hfull, Hprep. apply Forall_forall.
  intros cat Hcat. split; [by apply Hfull | by apply Hprep].
Qed.

(** ** The answer text *)

Lemma count_char_occurs c s : occurs c s = false <-> count_char c s = 0.
Proof.
  induction s as [|a s IH]; simpl; [done|].
  destruct (Ascii.eqb a c); simpl; [split; [done | lia]|done].
Qed.

(** X18: the replace of handleClick removes exactly one escape marker when
    there is one: the text shown is one character shorter and has one marker
    less than the answer, and it is the answer unchanged when the answer has no
    marker.  The text is free of markers, and equal to the answer with all
    markers removed, exactly when the answer has at most one. *)
Theorem replace_first_one_marker (c : Ascii.ascii) (s : string) :
  String.length (replace_first c s) = String.length s - Nat.min 1 (count_char c s) /\
  count_char c (replace_first c s) = count_char c s - 1 /\
  (count_char c s = 0 -> replace_first c s = s) /\
  (replace_first c s = strip_all c s <-> count_char c s <= 1).
Proof.
  assert (Hcount : count_char c (replace_first c s) = count_char c s - 1).
  { induction s as [|a s IH]; simpl; [done|].
    destruct (Ascii.eqb a c) eqn:Ha; simpl; [lia|]. by rewrite Ha. }
  split; [|split; [done|split]].
  - assert (Hle : forall t, count_char c t <= String.length t).
    { induction t as [|a t IH]; simpl; [done|]. destruct (Ascii.eqb a c); lia. }
    clear Hcount. induction s as [|a s IH]; simpl; [done|].
    destruct (Ascii.eqb a c) eqn:Ha; simpl; [by rewrite Nat.sub_0_r|].
    rewrite IH. specialize (Hle s).
    destruct (count_char c s); simpl.
    + by rewrite !Nat.sub_0_r.
    + lia.
  - intros Hnone%count_char_occurs. by apply replace_first_absent.
  - rewrite replace_first_strip_all, count_char_occurs, Hcount. lia.
Qed.

(** X19: the transition of a click, from any state.  On the cell of a clue
    whose answer is a string, handleClick returns and moves the clue from
    Hidden to Question, from Question to Answer, and leaves it in Answer; the
    text of the cell becomes the question, the answer less its first
    backslash, or stays as it is. *)
Theorem handleClick_transition
    (target : element) (w : world) (c k : nat) (clue : jsobj) (a : string) :
  c < 10 ->
  el_id target = cell_id c k ->
  clue_at c k w = Some clue ->
  get_prop clue "answer" = VStr a ->
  exists target' clue',
    fst (handleClick target w) = Ok target' /\
    clue_at c k (snd (handleClick target w)) = Some clue' /\
    revealState clue'
    = match revealState clue with Hidden => Question | _ => Answer end /\
    innerHTML target'
    = match revealState clue with
      | Hidden => dom_string (get_prop clue "question")
      | Question => replace_first backslash a
      | Answer => innerHTML target
      end.
Proof.
  intros Hc Hid Hclue Ha.
  rewrite (handleClick_cell _ _ c k) by done. rewrite Hclue, Ha.
  unfold revealState.
  destruct (truthy (get_prop clue "showing")) eqn:Htruthy.
  - destruct (loose_eq_str (get_prop clue "showing") "question") eqn:Hq; simpl.
    + eexists _, _. split; [done|]. rewrite clue_at_set_showing, Hclue. simpl.
      split; [done|]. split; [|done]. apply revealState_insert_answer.
    + exists target, clue. do 2 (split; [done|]). split; [|done].
      unfold revealState. by rewrite Htruthy, Hq.
  - simpl. eexists _, _. split; [done|]. rewrite clue_at_set_showing, Hclue. simpl.
    split; [done|]. split; [|done]. apply revealState_insert_question.
Qed.

Lemma handleClick_transition_witness :
  0 < 10 /\
  el_id (new_cell 0 0) = cell_id 0 0 /\
  clue_at 0 0 escaped_world
  = Some (<["showing" := VStr "question"]>
            (prepare_clue (source_clue 0 "q" escaped_answer))) /\
  get_prop (<["showing" := VStr "question"]>
              (prepare_clue (source_clue 0 "q" escaped_answer))) "answer"
  = VStr escaped_answer /\
  exists target' clue',
    fst (handleClick (new_cell 0 0) escaped_world) = Ok target' /\
    clue_at 0 0 (snd (handleClick (new_cell 0 0) escaped_world)) = Some clue' /\
    revealState clue'
    = match revealState (<["showing" := VStr "question"]>
                           (prepare_clue (source_clue 0 "q" escaped_answer))) with
      | Hidden => Question
      | _ => Answer
      end /\
    innerHTML target'
    = match revealState (<["showing" := VStr "question"]>
                           (prepare_clue (source_clue 0 "q" escaped_answer))) with
      | Hidden =>
          dom_string (get_prop (<["showing" := VStr "question"]>
                                  (prepare_clue (source_clue 0 "q" escaped_answer)))
                        "question")
      | Question => replace_first backslash escaped_answer
      | Answer => innerHTML (new_cell 0 0)
      end.
Proof.
  assert (Hc : 0 < 10) by lia.
  assert (Hid : el_id (new_cell 0 0) = cell_id 0 0) by reflexivity.
  assert (Hclue : clue_at 0 0 escaped_world
                  = Some (<["showing" := VStr "question"]>
                            (prepare_clue (source_clue 0 "q" escaped_answer))))
    by reflexivity.
  assert (Ha : get_prop (<["showing" := VStr "question"]>
                           (prepare_clue (source_clue 0 "q" escaped_answer))) "answer"
               = VStr escaped_answer) by (vm_compute; reflexivity).
  do 4 (split; [assumption|]).
  exact (handleClick_transition (new_cell 0 0) escaped_world 0 0 _ _ Hc Hid Hclue Ha).
Defined.

(** * Runs that give way *)

Section Interleaving.

Variable env : environment.

Lemma lookup_last_run (pre : list status) (st : status) :
  (pre ++ [st]) !! length pre = Some st.
Proof. by rewrite lookup_app_r, Nat.sub_diag by lia. Qed.

Lemma insert_last_run (pre : list status) (st st' : status) :
  <[length pre := st']> (pre ++ [st]) = pre ++ [st'].
Proof.
  rewrite insert_app_r_alt by lia. by rewrite Nat.sub_diag.
Qed.

Lemma resume_finished t sys r :
  sys_runs sys !! t = Some (Finished r) -> resume env t sys = sys.
Proof. intros H. unfold resume. by rewrite H. Qed.

Lemma run_finished t sys r m :
  sys_runs sys !! t = Some (Finished r) ->
  run env (replicate m (Response t)) sys = sys.
Proof.
  intros H. induction m as [|m IH]; [done|].
  simpl. unfold run in *. simpl. by rewrite (resume_finished _ _ r).
Qed.

Lemma run_cons e events sys :
  run env (e :: events) sys = run env events (step env sys e).
Proof. done. Qed.

(** With no other handler in between, answering the requests of a run takes
    its loop where [acquire] goes. *)
Lemma loop_settles pre rest w st m :
  let sys' := run env (replicate m (Response (length pre)))
                (continue_loop (length pre) rest (System w (pre ++ [st]))) in
  sys' = loop_end env pre rest w \/ (m < length rest /\ suspended pre sys').
Proof.
  revert w st m. induction rest as [|c rest IH]; intros w st m sys'; subst sys'.
  - left. unfold continue_loop, loop_end. simpl.
    destruct (length (categories w) <? 6)%nat; simpl;
      rewrite insert_last_run;
      eapply run_finished; simpl; apply lookup_last_run.
  - unfold continue_loop, loop_end. simpl sys_world. simpl sys_runs.
    cbn [acquire].
    destruct (length (categories w) <? 6)%nat eqn:Hlen.
    2: { left. simpl. rewrite insert_last_run.
         eapply run_finished; simpl; apply lookup_last_run. }
    rewrite insert_last_run.
    destruct m as [|m].
    { right. split; [simpl; lia|]. by eexists _, _, _, _. }
    simpl replicate. rewrite run_cons. simpl step. unfold resume.
    simpl sys_runs. rewrite lookup_last_run. simpl sys_world.
    unfold bind.
    destruct (getCategory_cases env (get_prop c "title") (get_prop c "id") w)
      as [[_ ->] | [(data & _ & _ & ->) | (data & cat & _ & _ & _ & ->)]].
    + left. simpl. rewrite insert_last_run.
      eapply run_finished; simpl; apply lookup_last_run.
    + unfold ret. destruct (IH w (AwaitClues (get_prop c "title") (get_prop c "id") rest) m)
        as [-> | [Hm Hsusp]].
      * by left.
      * right. split; [simpl; lia | done].
    + unfold modify.
      destruct (IH (set_categories
                      (categories (after_draws (length data - 5) w) ++ [cat])
                      (after_draws (length data - 5) w))
                   (AwaitClues (get_prop c "title") (get_prop c "id") rest) m)
        as [-> | [Hm Hsusp]].
      * by left.
      * right. split; [simpl; lia | done].
Qed.

(** A start whose requests are answered with no other handler in between
    goes where [start_click] goes. *)
Lemma isolated_start runs w m :
  let sys' := isolated env m w runs in
  sys' = start_end env runs w \/
  (pending runs sys' /\
   forall candidates,
     api_categories env 18 (floor_scaled (Math_random env (rand_calls w)) 20000)
     = Some candidates -> m < 1 + length candidates).
Proof.
  intros sys'. subst sys'. unfold isolated. rewrite run_cons. simpl step.
  unfold start_handler.
  simpl sys_world. simpl sys_runs. cbn [showLoadingView modify snd categories
    document member_showing rand_calls].
  set (offset := floor_scaled (Math_random env (rand_calls w)) 20000).
  set (w0 := World [] (Page [] [] false true "Loading") (member_showing w)
                   (S (rand_calls w))).
  assert (Hstart : start_click env w
                   = match api_categories env 18 offset with
                     | Some candidates =>
                         match acquire env candidates w0 with
                         | (Ok _, w1) => (Ok tt, snd (hideLoadingView (snd (fillTable w1))))
                         | (Throw e, w1) => (Throw e, w1)
                         | (Diverge, w1) => (Diverge, w1)
                         end
                     | None => (Throw TransportError, w0)
                     end).
  { unfold start_click, showLoadingView, modify, setupAndStart, getCategoryIds,
      random_below, bind. cbn [rand_calls categories document member_showing].
    fold offset. fold w0.
    destruct (api_categories env 18 offset) as [candidates|]; [|done].
    unfold ret. by destruct (acquire env candidates w0) as [[[]|e|] w1]. }
  destruct m as [|m].
  { right. split.
    - eexists _, _. split; [done|]. done.
    - intros. lia. }
  simpl replicate. rewrite run_cons. simpl step. unfold resume.
  simpl sys_runs. rewrite lookup_last_run. simpl sys_world.
  unfold start_end. rewrite Hstart.
  destruct (api_categories env 18 offset) as [candidates|] eqn:Hcands.
  - destruct (loop_settles runs candidates w0 (AwaitCategories 18 offset) m)
      as [-> | [Hm (w' & a & b & c & ->)]].
    + left. unfold loop_end.
      by destruct (acquire env candidates w0) as [[[]|e|] w1].
    + right. split.
      * eexists _, _. split; [done|]. done.
      * intros ? [= <-]. lia.
  - left. simpl. rewrite insert_last_run.
    eapply run_finished; simpl; apply lookup_last_run.
Qed.

(** What a run that is over after such a start has done. *)
Lemma isolated_start_finished runs w m r :
  sys_runs (isolated env m w runs) !! length runs = Some (Finished r) ->
  isolated env m w runs
  = System (snd (start_click env w)) (runs ++ [Finished r]) /\
  start_click env w = (r, snd (start_click env w)).
Proof.
  destruct (isolated_start runs w m) as [-> | [(w' & st & -> & Hst) _]].
  - unfold start_end. simpl. rewrite lookup_last_run. intros [= <-].
    split; [done|]. by destruct (start_click env w).
  - simpl. rewrite lookup_last_run. intros [= ->]. by destruct (Hst r).
Qed.

End Interleaving.

(** * Windows of a run *)

Section Windows.

Variable env : environment.

Lemma run_snoc events e sys :
  run env (events ++ [e]) sys = step env (run env events sys) e.
Proof. unfold run. by rewrite foldl_app. Qed.

Lemma handleClick_document target w :
  document (snd (handleClick target w)) = document w.
Proof.
  destruct (handleClick_effect target w)
    as [-> | [(c & k & clue & v & _ & _ & ->) | (key & ->)]]; done.
Qed.

Lemma handleClick_lengths target w :
  (fun cat => length (clues cat)) <$> categories (snd (handleClick target w))
  = (fun cat => length (clues cat)) <$> categories w.
Proof.
  destruct (handleClick_effect target w)
    as [-> | [(c & k & clue & v & _ & _ & ->) | (key & ->)]]; try done.
  apply length_clues_set_showing.
Qed.

Lemma click_cell_categories i n w :
  categories (click_cell i n w)
  = match cell_at i n w with
    | Some target => categories (snd (handleClick target w))
    | None => categories w
    end.
Proof.
  unfold click_cell. destruct (cell_at i n w) as [target|]; [|done].
  by destruct (handleClick target w) as [[target'|e|] w'].
Qed.

Lemma click_cell_lengths i n w :
  (fun cat => length (clues cat)) <$> categories (click_cell i n w)
  = (fun cat => length (clues cat)) <$> categories w.
Proof.
  rewrite click_cell_categories. destruct (cell_at i n w); [|done].
  apply handleClick_lengths.
Qed.

Lemma click_cell_length i n w :
  length (categories (click_cell i n w)) = length (categories w).
Proof.
  pose proof (click_cell_lengths i n w) as H.
  apply (f_equal length) in H. by rewrite !length_fmap in H.
Qed.

Lemma click_cell_empty i n w :
  tbody (document w) = [] -> click_cell i n w = w.
Proof.
  intros H. unfold click_cell, cell_at. by rewrite H.
Qed.






Lemma continue_loop_settled t rest sys :
  is_Some (sys_runs sys !! t) ->
  length (categories (sys_world sys)) <= 6 ->
  tbody (document (sys_world sys)) = [] ->
  settled t (continue_loop t rest sys).
Proof.
  intros Ht%lookup_lt_is_Some Hlen Hbody. unfold continue_loop, settled.
  destruct (length (categories (sys_world sys)) <? 6)%nat eqn:Hsix.
  - apply Nat.ltb_lt in Hsix.
    destruct rest as [|c rest]; simpl; by rewrite list_lookup_insert_eq.
  - apply Nat.ltb_ge in Hsix. simpl. rewrite list_lookup_insert_eq by done.
    rewrite fillTable_categories. lia.
Qed.

Lemma resume_settled t sys :
  settled t sys -> settled t (resume env t sys).
Proof.
  intros Hset. unfold resume. pose proof Hset as Hset'. unfold settled in Hset'.
  destruct (sys_runs sys !! t) as [[count offset|catTitle catId rest|r]|] eqn:Hrun;
    try done.
  - destruct Hset' as [Hlen Hbody].
    destruct (api_categories env count offset).
    + apply continue_loop_settled; [by rewrite Hrun | lia | done].
    + unfold settled. simpl.
      by rewrite list_lookup_insert_eq by (by eapply lookup_lt_Some).
  - destruct Hset' as [Hlen Hbody].
    destruct (getCategory_cases env catTitle catId (sys_world sys))
      as [[_ ->] | [(data & _ & _ & ->) | (data & cat & _ & _ & Hcat & ->)]].
    + unfold settled. simpl.
      by rewrite list_lookup_insert_eq by (by eapply lookup_lt_Some).
    + apply continue_loop_settled; simpl; [by rewrite Hrun | lia | done].
    + apply continue_loop_settled; simpl; [by rewrite Hrun | | done].
      rewrite length_app. simpl. lia.
Qed.

Lemma step_settled t sys e :
  own_event t e -> settled t sys -> settled t (step env sys e).
Proof.
  intros He Hset. destruct e as [|t'|i n]; simpl in *; [done| |].
  - subst t'. by apply resume_settled.
  - unfold settled in *. simpl.
    destruct (sys_runs sys !! t) as [[count offset|catTitle catId rest|[[]|e|]]|];
      try done;
      first [by rewrite click_cell_length
            | by rewrite click_cell_empty by apply Hset].
Qed.

Lemma run_settled t events sys :
  Forall (own_event t) events -> settled t sys -> settled t (run env events sys).
Proof.
  revert sys. induction events as [|e events IH]; intros sys Hown Hset; [done|].
  apply Forall_cons in Hown as [He Hown].
  rewrite run_cons. by apply IH, step_settled.
Qed.

Lemma start_settled w runs :
  settled (length runs) (step env (System w runs) ClickStart).
Proof.
  unfold settled. simpl. rewrite lookup_last_run. simpl. split; [lia|done].
Qed.

Lemma window_settled w runs events :
  Forall (own_event (length runs)) events ->
  settled (length runs) (run env (ClickStart :: events) (System w runs)).
Proof.
  intros Hown. rewrite run_cons. apply run_settled; [done|]. apply start_settled.
Qed.

End Windows.




(** * A start that fails *)

Section Failure.

Variable env : environment.

Lemma start_click_unfold w :
  start_click env w
  = match api_categories env 18
            (floor_scaled (Math_random env (rand_calls w)) 20000) with
    | Some candidates =>
        match acquire env candidates
                (World [] (Page [] [] false true "Loading") (member_showing w)
                       (S (rand_calls w))) with
        | (Ok _, w1) => (Ok tt, snd (hideLoadingView (snd (fillTable w1))))
        | (Throw e, w1) => (Throw e, w1)
        | (Diverge, w1) => (Diverge, w1)
        end
    | None =>
        (Throw TransportError,
         World [] (Page [] [] false true "Loading") (member_showing w)
               (S (rand_calls w)))
    end.
Proof.
  unfold start_click, showLoadingView, modify, setupAndStart, getCategoryIds,
    random_below, bind. cbn [rand_calls categories document member_showing].
  destruct (api_categories env 18 _) as [candidates|]; [|done].
  unfold ret. by destruct (acquire env candidates _) as [[[]|e|] w1].
Qed.

(** When a request for clues fails, the loop of [setupAndStart] has added
    the categories of the candidates it accepted before. *)
Lemma acquire_transport candidates w w' :
  acquire env candidates w = (Throw TransportError, w') ->
  exists tried failing rest new,
    candidates = tried ++ failing :: rest /\
    Forall (served env) tried /\ ~ served env failing /\
    categories w' = categories w ++ new /\
    Forall2 (taken_from env) new (List.filter (accepted env) tried).
Proof.
  revert w. induction candidates as [|c candidates IH]; intros w; cbn [acquire].
  - by destruct (length (categories w) <? 6)%nat.
  - destruct (length (categories w) <? 6)%nat; [|done].
    unfold bind.
    destruct (api_clues env (ToString (get_prop c "id"))) as [data|] eqn:Hapi.
    + destruct (Nat.lt_ge_cases (length data) 5) as [Hshort|Hlong].
      * rewrite (getCategory_short env _ _ data) by done. unfold ret.
        intros (tried & failing & rest & new & -> & Hs & Hf & Hc & Hnew)%IH.
        exists (c :: tried), failing, rest, new.
        split; [done|]. split.
        { apply Forall_cons_2; [|done]. unfold served. by rewrite Hapi. }
        split; [done|]. split; [done|].
        simpl. unfold accepted at 1. rewrite Hapi.
        by destruct (Nat.leb_spec 5 (length data)); [lia|].
      * rewrite (getCategory_enough env _ _ data) by done. unfold modify.
        intros (tried & failing & rest & new & -> & Hs & Hf & Hc & Hnew)%IH.
        eexists (c :: tried), failing, rest, (_ :: new).
        split; [done|]. split.
        { apply Forall_cons_2; [|done]. unfold served. by rewrite Hapi. }
        split; [done|]. split.
        { rewrite Hc. simpl. by rewrite <- app_assoc. }
        simpl. unfold accepted at 1. rewrite Hapi.
        destruct (Nat.leb_spec 5 (length data)); [|lia].
        constructor; [|done].
        split; [done|]. exists data, (kept_clues env data w).
        split; [done|]. split; [apply survivors_sublist|].
        split; [by apply length_kept_clues | done].
    + rewrite getCategory_offline by done. intros [= <-].
      exists [], c, candidates, [].
      split; [done|]. split; [apply Forall_nil_2|].
      split; [unfold served; by intros []|].
      split; [by rewrite app_nil_r | constructor].
Qed.

(** What a start does when a request fails and no other handler ran in
    between. *)
Lemma start_click_transport w w' :
  start_click env w = (Throw TransportError, w') ->
  length (categories w') < 6 /\
  match api_categories env 18
          (floor_scaled (Math_random env (rand_calls w)) 20000) with
  | None => categories w' = []
  | Some candidates =>
      exists tried failing rest,
        candidates = tried ++ failing :: rest /\
        Forall (served env) tried /\ ~ served env failing /\
        Forall2 (taken_from env) (categories w') (List.filter (accepted env) tried)
  end.
Proof.
  intros Hrun. split; [by apply (start_click_result env w _ _ Hrun)|].
  rewrite start_click_unfold in Hrun.
  destruct (api_categories env 18 _) as [candidates|].
  - destruct (acquire env candidates _) as [[[]|e|] w1] eqn:Hacq; try done.
    injection Hrun as -> ->.
    apply acquire_transport in Hacq
      as (tried & failing & rest & new & -> & Hs & Hf & Hc & Hnew).
    exists tried, failing, rest. simpl in Hc. by rewrite Hc.
  - by injection Hrun as <-.
Qed.

Lemma settled_cases t sys :
  settled t sys ->
  sys_runs sys !! t = Some (Finished (Ok tt)) \/
  tbody (document (sys_world sys)) = [].
Proof.
  unfold settled.
  destruct (sys_runs sys !! t) as [[count offset|catTitle catId rest|[[]|e|]]|];
    try done; first [by left | intros [_ ?]; by right].
Qed.

Lemma system_eta sys : System (sys_world sys) (sys_runs sys) = sys.
Proof. by destruct sys. Qed.

Lemma isolated_S m w runs :
  isolated env (S m) w runs
  = step env (isolated env m w runs) (Response (length runs)).
Proof.
  unfold isolated. rewrite replicate_S_end. by rewrite app_comm_cons, run_snoc.
Qed.

(** Clicks on cells in the window of a run that has not returned find no
    cell: such a window goes where the answers alone take it. *)
Lemma quiet_window w runs events :
  Forall (own_event (length runs)) events ->
  run env (ClickStart :: events) (System w runs)
  = isolated env (responses events) w runs \/
  sys_runs (run env (ClickStart :: events) (System w runs)) !! length runs
  = Some (Finished (Ok tt)).
Proof.
  induction events as [|e events IH] using rev_ind; intros Hown; [by left|].
  apply Forall_app in Hown as [Hown He]. rewrite Forall_singleton in He.
  pose proof (window_settled env w runs events Hown) as Hset.
  rewrite app_comm_cons, run_snoc.
  destruct (IH Hown) as [Hiso | Hdone].
  - destruct e as [|t|i n]; simpl in He; [done| |].
    + subst t. left. rewrite Hiso.
      replace (responses (events ++ [Response (length runs)]))
        with (S (responses events)).
      * by rewrite isolated_S.
      * unfold responses. rewrite List.filter_app, length_app. simpl. lia.
    + replace (responses (events ++ [ClickCell i n])) with (responses events)
        by (unfold responses; rewrite List.filter_app, length_app; simpl; lia).
      cbn [step sys_runs].
      destruct (settled_cases _ _ Hset) as [Hdone | Hbody]; [by right|].
      left. rewrite click_cell_empty by done. rewrite <- Hiso.
      apply system_eta.
  - right. destruct e as [|t|i n]; simpl in He; [done| |done].
    subst t. cbn [step]. by rewrite (resume_finished env _ _ _ Hdone).
Qed.

End Failure.

(** C6, amended: when a remote call fails during a game-start attempt, the
    prior board is not kept.  The click empties the categories list; when no
    other start begins and no other run is answered during the attempt, the
    list holds after the failure the categories of the candidates accepted
    in this attempt before the failure, in their order and each with five
    clues of its candidate: fewer than 6 categories, and none when the
    request for the candidates failed.  The list is the same whatever the
    prior board was. *)
Theorem failed_start_board
    (env : environment) (w : world) (runs : list status) (events : list event) :
  let sys' := run env (ClickStart :: events) (System w runs) in
  Forall (own_event (length runs)) events ->
  sys_runs sys' !! length runs = Some (Finished (Throw TransportError)) ->
  categories (sys_world (step env (System w runs) ClickStart)) = [] /\
  length (categories (sys_world sys')) < 6 /\
  Forall (fun c => length (clues c) = 5) (categories (sys_world sys')) /\
  (forall prior,
     run env (ClickStart :: events) (System (set_categories prior w) runs) = sys') /\
  match api_categories env 18
          (floor_scaled (Math_random env (rand_calls w)) 20000) with
  | None => categories (sys_world sys') = []
  | Some candidates =>
      exists tried failing rest,
        candidates = tried ++ failing :: rest /\
        Forall (served env) tried /\ ~ served env failing /\
        Forall2 (taken_from env) (categories (sys_world sys'))
                (List.filter (accepted env) tried)
  end.
Proof.
  intros sys' Hown Hfail. subst sys'.
  split; [done|].
  assert (Hstart : exists w',
             categories (sys_world (run env (ClickStart :: events) (System w runs)))
             = categories w' /\
             start_click env w = (Throw TransportError, w')).
  { destruct (quiet_window env w runs events Hown) as [Hiso | Hdone].
    - rewrite Hiso in Hfail |- *.
      apply isolated_start_finished in Hfail as [-> Hrun]. eauto.
    - by rewrite Hdone in Hfail. }
  destruct Hstart as (w' & -> & Hrun).
  pose proof (start_click_result env w _ _ Hrun) as [Hfull _].
  apply start_click_transport in Hrun as [Hlen Hboard].
  split; [done|]. split; [done|]. split; [done|]. done.
Qed.

Lemma failed_start_board_witness :
  Forall (own_event 0)
    [Response 0; ClickCell 0 0; Response 0; Response 0; Response 0] /\
  sys_runs (run flaky_env
              [ClickStart; Response 0; ClickCell 0 0; Response 0; Response 0;
               Response 0]
              (System played_world [])) !! 0
  = Some (Finished (Throw TransportError)) /\
  categories (sys_world (step flaky_env (System played_world []) ClickStart)) = [] /\
  length (categories (sys_world
    (run flaky_env
       [ClickStart; Response 0; ClickCell 0 0; Response 0; Response 0; Response 0]
       (System played_world [])))) < 6 /\
  Forall (fun c => length (clues c) = 5)
    (categories (sys_world
      (run flaky_env
         [ClickStart; Response 0; ClickCell 0 0; Response 0; Response 0; Response 0]
         (System played_world [])))) /\
  (forall prior,
     run flaky_env
       [ClickStart; Response 0; ClickCell 0 0; Response 0; Response 0; Response 0]
       (System (set_categories prior played_world) [])
     = run flaky_env
         [ClickStart; Response 0; ClickCell 0 0; Response 0; Response 0; Response 0]
         (System played_world [])) /\
  exists tried failing rest,
    eight_candidates = tried ++ failing :: rest /\
    Forall (served flaky_env) tried /\ ~ served flaky_env failing /\
    Forall2 (taken_from flaky_env)
      (categories (sys_world
        (run flaky_env
           [ClickStart; Response 0; ClickCell 0 0; Response 0; Response 0;
            Response 0]
           (System played_world []))))
      (List.filter (accepted flaky_env) tried).
Proof.
  assert (Hown : Forall (own_event 0)
            [Response 0; ClickCell 0 0; Response 0; Response 0; Response 0])
    by (repeat first [apply Forall_nil_2 | apply Forall_cons_2]; done).
  assert (Hfail : sys_runs (run flaky_env
              [ClickStart; Response 0; ClickCell 0 0; Response 0; Response 0;
               Response 0]
              (System played_world [])) !! length (@nil status)
            = Some (Finished (Throw TransportError))) by (vm_compute; reflexivity).
  split; [assumption|]. split; [assumption|].
  exact (failed_start_board flaky_env played_world [] _ Hown Hfail).
Defined.

(** * Clicks on the cells of the page *)

Lemma handleClick_id target w target' :
  fst (handleClick target w) = Ok target' -> el_id target' = el_id target.
Proof.
  unfold handleClick.
  repeat case_match; simpl; intros [= <-]; done.
Qed.

Lemma cell_at_document i n w w' :
  document w' = document w -> cell_at i n w' = cell_at i n w.
Proof. unfold cell_at. by intros ->. Qed.

Lemma clue_at_categories c k w w' :
  categories w' = categories w -> clue_at c k w' = clue_at c k w.
Proof. unfold clue_at. by intros ->. Qed.

(** What a click on a cell does to the board: what [handleClick] does when
    it is given that cell. *)
Lemma click_cell_board i n w :
  (cell_at i n w = None /\ click_cell i n w = w) \/
  (exists target,
     cell_at i n w = Some target /\
     categories (click_cell i n w) = categories (snd (handleClick target w)) /\
     member_showing (click_cell i n w)
     = member_showing (snd (handleClick target w)) /\
     rand_calls (click_cell i n w) = rand_calls (snd (handleClick target w))).
Proof.
  unfold click_cell. destruct (cell_at i n w) as [target|]; [right|by left].
  exists target. split; [done|].
  by destruct (handleClick target w) as [[target'|e|] w'].
Qed.

(** What a click on a cell does to the page: the clicked cell is the only
    one that may change, and it keeps its identifier. *)
Lemma click_cell_page i n w :
  thead (document (click_cell i n w)) = thead (document w) /\
  jeopardy_shown (document (click_cell i n w)) = jeopardy_shown (document w) /\
  spinner_shown (document (click_cell i n w)) = spinner_shown (document w) /\
  start_text (document (click_cell i n w)) = start_text (document w) /\
  (forall i' n', (i', n') <> (i, n) ->
     cell_at i' n' (click_cell i n w) = cell_at i' n' w) /\
  el_id <$> cell_at i n (click_cell i n w) = el_id <$> cell_at i n w.
Proof.
  unfold click_cell. destruct (cell_at i n w) as [target|] eqn:Hcell;
    [|by rewrite Hcell].
  pose proof (handleClick_document target w) as Hdoc.
  pose proof (handleClick_id target w) as Hid.
  destruct (handleClick target w) as [[target'|e|] w1]; simpl in Hdoc, Hid.
  - cbn [document set_document thead jeopardy_shown spinner_shown start_text].
    rewrite Hdoc. do 4 (split; [done|]).
    unfold cell_at in *. cbn [document set_document tbody]. rewrite ?Hdoc.
    destruct (tbody (document w) !! i) as [row|] eqn:Hrow; [|done].
    simpl in Hcell. split.
    + intros i' n' Hne. destruct (decide (i' = i)) as [->|Hi].
      * rewrite list_lookup_alter_eq, Hrow. simpl.
        rewrite list_lookup_alter_ne; [done|]. intros ->. by apply Hne.
      * by rewrite list_lookup_alter_ne.
    + rewrite list_lookup_alter_eq, Hrow. simpl.
      rewrite list_lookup_alter_eq, Hcell. simpl. f_equal. by apply Hid.
  - rewrite Hdoc. do 4 (split; [done|]).
    split; [intros; by apply cell_at_document|].
    by rewrite (cell_at_document i n w w1), Hcell.
  - rewrite Hdoc. do 4 (split; [done|]).
    split; [intros; by apply cell_at_document|].
    by rewrite (cell_at_document i n w w1), Hcell.
Qed.


Lemma addresses_clue_id w w' target target' :
  categories w' = categories w -> el_id target' = el_id target ->
  addresses_clue w target -> addresses_clue w' target'.
Proof.
  intros Hcs Hid (c & k & Hc & Hcell & Hclue). exists c, k.
  split; [done|]. split; [congruence|]. by rewrite (clue_at_categories _ _ w).
Qed.

Lemma answers_are_strings_categories w w' :
  categories w' = categories w -> answers_are_strings w -> answers_are_strings w'.
Proof.
  intros Hcs Hans c k clue Hclue. apply (Hans c k).
  by rewrite <- (clue_at_categories _ _ w w').
Qed.

(** Clicks on cells keep the table clickable. *)
Lemma click_cell_clickable i n w :
  answers_are_strings w ->
  (forall i' n' target, cell_at i' n' w = Some target -> addresses_clue w target) ->
  answers_are_strings (click_cell i n w) /\
  (forall i' n' target,
     cell_at i' n' (click_cell i n w) = Some target ->
     addresses_clue (click_cell i n w) target).
Proof.
  intros Hans Hcells.
  destruct (click_cell_page i n w) as (_ & _ & _ & _ & Hother & Hsame).
  destruct (click_cell_board i n w)
    as [[Hnone ->] | (target & Hcell & Hcs & _ & _)]; [done|].
  split.
  - eapply answers_are_strings_categories; [done|].
    by apply handleClick_keeps_answers.
  - intros i' n' t Ht. destruct (decide ((i', n') = (i, n))) as [[= -> ->]|Hne].
    + rewrite Ht, Hcell in Hsame. simpl in Hsame. injection Hsame as Hid.
      eapply addresses_clue_id; [done..|].
      apply handleClick_keeps_addresses. by eapply Hcells.
    + rewrite Hother in Ht by done.
      eapply addresses_clue_id; [done|done|].
      apply handleClick_keeps_addresses. by eapply Hcells.
Qed.

Lemma body_cell_at i n (d : page) w target :
  document w = d -> tbody d = body_row <$> seq 0 5 ->
  cell_at i n w = Some target ->
  i < 5 /\ n < 6 /\ target = new_cell n i.
Proof.
  intros Hdoc Hbody. unfold cell_at. rewrite Hdoc, Hbody.
  rewrite list_lookup_fmap.
  destruct (seq 0 5 !! i) as [i'|] eqn:Hi; [|done]. simpl.
  apply lookup_seq in Hi as [-> Hi]. unfold body_row.
  rewrite list_lookup_fmap.
  destruct (seq 0 6 !! n) as [n'|] eqn:Hn; [|done]. simpl.
  apply lookup_seq in Hn as [-> Hn]. by intros [= <-].
Qed.

Section Starts.

Variable env : environment.

Lemma clicks_clickable clicks sys :
  Forall cell_click clicks ->
  answers_are_strings (sys_world sys) ->
  (forall i n target,
     cell_at i n (sys_world sys) = Some target ->
     addresses_clue (sys_world sys) target) ->
  answers_are_strings (sys_world (run env clicks sys)) /\
  (forall i n target,
     cell_at i n (sys_world (run env clicks sys)) = Some target ->
     addresses_clue (sys_world (run env clicks sys)) target).
Proof.
  revert sys. induction clicks as [|e clicks IH]; intros sys Hclicks Hans Hcells;
    [done|].
  apply Forall_cons in Hclicks as [He Hclicks].
  destruct e as [|t|i n]; simpl in He; try done.
  rewrite run_cons. apply IH; [done|..]; simpl;
    by apply click_cell_clickable.
Qed.

(** The world of a start that has returned with no other handler in
    between. *)
Lemma isolated_ok w runs m :
  sys_runs (isolated env m w runs) !! length runs = Some (Finished (Ok tt)) ->
  start_click env w = (Ok tt, sys_world (isolated env m w runs)).
Proof.
  intros [Hsys Hrun]%isolated_start_finished. by rewrite Hsys.
Qed.

Lemma isolated_throw w runs m e :
  sys_runs (isolated env m w runs) !! length runs = Some (Finished (Throw e)) ->
  start_click env w = (Throw e, sys_world (isolated env m w runs)).
Proof.
  intros [Hsys Hrun]%isolated_start_finished. by rewrite Hsys.
Qed.

End Starts.


(** * What a start builds when no other handler runs in between *)

(** X11: after a start that succeeds with no other handler in between, the
    page is in its ready view: the table is shown, the spinner hidden, the
    button reads New Game, the one header row shows the titles of the six
    categories in the order of the board, and there are five body rows whose
    cells each carry the identifier of a clue that is on the board. *)
Theorem isolated_start_ready
    (env : environment) (w : world) (runs : list status) (m : nat) :
  let w' := sys_world (isolated env m w runs) in
  sys_runs (isolated env m w runs) !! length runs = Some (Finished (Ok tt)) ->
  document w'
  = Page [(fun c => dom_string (title c)) <$> categories w']
         (body_row <$> seq 0 5) true false "New Game" /\
  length (table_cells w') = 30 /\
  forall cell, cell ∈ table_cells w' ->
    exists n i, n < 6 /\ i < 5 /\ el_id cell = cell_id n i /\
                is_Some (clue_at n i w').
Proof.
  intros w' (Hlen & Hfull & _ & Hdoc)%isolated_ok%start_click_ok. fold w' in Hdoc.
  split; [done|]. unfold table_cells. rewrite Hdoc. simpl.
  split; [done|].
  intros cell (n & i & Hn & Hi & ->)%body_cells.
  exists n, i. do 2 (split; [done|]). split; [done|].
  by apply full_board_clue_at.
Qed.

Lemma isolated_start_ready_witness :
  sys_runs (isolated sample_env 8 initial_world []) !! 0
  = Some (Finished (Ok tt)) /\
  document (sys_world (isolated sample_env 8 initial_world []))
  = Page [(fun c => dom_string (title c))
            <$> categories (sys_world (isolated sample_env 8 initial_world []))]
         (body_row <$> seq 0 5) true false "New Game" /\
  length (table_cells (sys_world (isolated sample_env 8 initial_world []))) = 30 /\
  forall cell,
    cell ∈ table_cells (sys_world (isolated sample_env 8 initial_world [])) ->
    exists n i, n < 6 /\ i < 5 /\ el_id cell = cell_id n i /\
                is_Some (clue_at n i (sys_world (isolated sample_env 8 initial_world []))).
Proof.
  assert (Hdone : sys_runs (isolated sample_env 8 initial_world [])
                    !! length (@nil status)
                  = Some (Finished (Ok tt))) by (vm_compute; reflexivity).
  split; [assumption|].
  exact (isolated_start_ready sample_env initial_world [] 8 Hdone).
Defined.

(** X12: a start that fails with no other handler in between leaves the page
    in its loading view: the table is hidden and emptied, the spinner shown,
    and the button reads Loading; hideLoadingView is not reached. *)
Theorem isolated_start_stays_loading
    (env : environment) (w : world) (runs : list status) (m : nat) (e : error) :
  let w' := sys_world (isolated env m w runs) in
  sys_runs (isolated env m w runs) !! length runs = Some (Finished (Throw e)) ->
  document w' = Page [] [] false true "Loading" /\ table_cells w' = [].
Proof.
  intros w' Hdoc%isolated_throw%start_click_stuck. fold w' in Hdoc.
  unfold table_cells. by rewrite Hdoc.
Qed.

Lemma isolated_start_stays_loading_witness :
  sys_runs (isolated flaky_env 4 played_world []) !! 0
  = Some (Finished (Throw TransportError)) /\
  document (sys_world (isolated flaky_env 4 played_world []))
  = Page [] [] false true "Loading" /\
  table_cells (sys_world (isolated flaky_env 4 played_world [])) = [].
Proof.
  assert (Hfail : sys_runs (isolated flaky_env 4 played_world [])
                    !! length (@nil status)
                  = Some (Finished (Throw TransportError)))
    by (vm_compute; reflexivity).
  split; [assumption|].
  exact (isolated_start_stays_loading flaky_env played_world [] 4 _ Hfail).
Defined.

(** X13: a start that succeeds with no other handler in between builds a
    fresh board: a pair of indices addresses a clue exactly when the column is
    below 6 and the row below 5, and every clue is hidden and has a string
    question and a string answer, whatever was revealed on the board
    before. *)
Theorem isolated_start_fresh_board
    (env : environment) (w : world) (runs : list status) (m : nat) :
  let w' := sys_world (isolated env m w runs) in
  sys_runs (isolated env m w runs) !! length runs = Some (Finished (Ok tt)) ->
  forall c k,
    match clue_at c k w' with
    | Some clue =>
        c < 6 /\ k < 5 /\ revealState clue = Hidden /\
        exists q a, get_prop clue "question" = VStr q /\
                    get_prop clue "answer" = VStr a
    | None => 6 <= c \/ 5 <= k
    end.
Proof.
  intros w' (Hlen & Hfull & Hprep & _)%isolated_ok%start_click_ok c k.
  fold w' in Hlen, Hfull, Hprep.
  destruct (clue_at c k w') as [clue|] eqn:Hclue.
  - unfold clue_at in Hclue.
    destruct (categories w' !! c) as [cat|] eqn:Hcat; [|done]. simpl in Hclue.
    pose proof (lookup_lt_Some _ _ _ Hcat) as Hc.
    pose proof (lookup_lt_Some _ _ _ Hclue) as Hk.
    rewrite Forall_forall in Hfull, Hprep.
    rewrite (Hfull cat) in Hk by (by eapply list_elem_of_lookup_2).
    destruct (Hprep cat) as [srcs Hsrcs]; [by eapply list_elem_of_lookup_2|].
    rewrite Hsrcs, list_lookup_fmap in Hclue.
    destruct (srcs !! k) as [src|]; [|done]. injection Hclue as <-.
    split; [lia|]. split; [lia|]. split; [apply prepare_clue_hidden|].
    eexists _, _. unfold get_prop.
    by rewrite prepare_clue_question, prepare_clue_answer.
  - destruct (Nat.lt_ge_cases c 6) as [Hc|Hc]; [|by left].
    destruct (Nat.lt_ge_cases k 5) as [Hk|Hk]; [|by right].
    destruct (full_board_clue_at w' c k) as [clue Hsome]; try done.
    by rewrite Hsome in Hclue.
Qed.

Lemma isolated_start_fresh_board_witness :
  sys_runs (isolated sample_env 8 played_world []) !! 0
  = Some (Finished (Ok tt)) /\
  forall c k,
    match clue_at c k (sys_world (isolated sample_env 8 played_world [])) with
    | Some clue =>
        c < 6 /\ k < 5 /\ revealState clue = Hidden /\
        exists q a, get_prop clue "question" = VStr q /\
                    get_prop clue "answer" = VStr a
    | None => 6 <= c \/ 5 <= k
    end.
Proof.
  assert (Hdone : sys_runs (isolated sample_env 8 played_world [])
                    !! length (@nil status)
                  = Some (Finished (Ok tt))) by (vm_compute; reflexivity).
  split; [assumption|].
  exact (isolated_start_fresh_board sample_env played_world [] 8 Hdone).
Defined.

(** X14: after a start that succeeds with no other handler in between, a
    click on a cell of the table, the cell itself being the target, never
    makes handleClick throw, in whatever order and however often the cells
    are clicked. *)
Theorem cell_clicks_return
    (env : environment) (w : world) (runs : list status) (m : nat)
    (clicks : list event) :
  let w' := sys_world (run env clicks (isolated env m w runs)) in
  sys_runs (isolated env m w runs) !! length runs = Some (Finished (Ok tt)) ->
  Forall cell_click clicks ->
  forall i n target,
    cell_at i n w' = Some target ->
    exists target', fst (handleClick target w') = Ok target'.
Proof.
  intros w' Hdone Hclicks.
  pose proof (start_click_ok env w _ (isolated_ok env w runs m Hdone))
    as (Hlen & Hfull & Hprep & Hdoc).
  destruct (clicks_clickable env clicks (isolated env m w runs) Hclicks)
    as [Hans Hcells].
  - by apply prepared_answers.
  - intros i n target Hcell.
    eapply body_cell_at in Hcell as (Hi & Hn & ->); [|done..].
    exists n, i. split; [lia|]. split; [done|]. by apply full_board_clue_at.
  - intros i n target Hcell. apply handleClick_returns; [done|].
    by eapply Hcells.
Qed.

Lemma cell_clicks_return_witness :
  sys_runs (isolated sample_env 8 initial_world []) !! 0
  = Some (Finished (Ok tt)) /\
  Forall cell_click [ClickCell 0 0; ClickCell 4 5; ClickCell 0 0; ClickCell 0 0] /\
  forall i n target,
    cell_at i n
      (sys_world (run sample_env
                    [ClickCell 0 0; ClickCell 4 5; ClickCell 0 0; ClickCell 0 0]
                    (isolated sample_env 8 initial_world [])))
    = Some target ->
    exists target',
      fst (handleClick target
             (sys_world (run sample_env
                           [ClickCell 0 0; ClickCell 4 5; ClickCell 0 0; ClickCell 0 0]
                           (isolated sample_env 8 initial_world []))))
      = Ok target'.
Proof.
  assert (Hdone : sys_runs (isolated sample_env 8 initial_world [])
                    !! length (@nil status)
                  = Some (Finished (Ok tt))) by (vm_compute; reflexivity).
  assert (Hclicks : Forall cell_click
                      [ClickCell 0 0; ClickCell 4 5; ClickCell 0 0; ClickCell 0 0])
    by (repeat first [apply Forall_nil_2 | apply Forall_cons_2]; done).
  do 2 (split; [assumption|]).
  exact (cell_clicks_return sample_env initial_world [] 8 _ Hdone Hclicks).
Defined.

(** X15: a start that succeeds with no other handler in between requested
    the candidates from the catalogue, and the categories of the board are, by
    their titles and in this order, the first six candidates whose clue lists
    have five clues or more. *)
Theorem isolated_start_takes_first_six
    (env : environment) (w : world) (runs : list status) (m : nat) :
  let w' := sys_world (isolated env m w runs) in
  sys_runs (isolated env m w runs) !! length runs = Some (Finished (Ok tt)) ->
  exists candidates,
    api_categories env 18 (floor_scaled (Math_random env (rand_calls w)) 20000)
    = Some candidates /\
    title <$> categories w'
    = take 6 ((fun c => get_prop c "title") <$> List.filter (accepted env) candidates).
Proof.
  intros w' Hrun%isolated_ok. fold w' in Hrun.
  rewrite start_click_unfold in Hrun.
  destruct (api_categories env 18 _) as [candidates|]; [|done].
  destruct (acquire env candidates _) as [[[]|e|] w1] eqn:Hacq; [|done..].
  apply acquire_titles in Hacq. simpl in Hacq.
  injection Hrun as <-. exists candidates. split; [done|].
  simpl. by rewrite fillTable_categories.
Qed.

Lemma isolated_start_takes_first_six_witness :
  sys_runs (isolated sample_env 8 initial_world []) !! 0
  = Some (Finished (Ok tt)) /\
  exists candidates,
    api_categories sample_env 18
      (floor_scaled (Math_random sample_env (rand_calls initial_world)) 20000)
    = Some candidates /\
    title <$> categories (sys_world (isolated sample_env 8 initial_world []))
    = take 6 ((fun c => get_prop c "title")
                <$> List.filter (accepted sample_env) candidates).
Proof.
  assert (Hdone : sys_runs (isolated sample_env 8 initial_world [])
                    !! length (@nil status)
                  = Some (Finished (Ok tt))) by (vm_compute; reflexivity).
  split; [assumption|].
  exact (isolated_start_takes_first_six sample_env initial_world [] 8 Hdone).
Defined.

(** X16: when the catalogue answers the request for candidates and serves
    the clues of every candidate, a start with no other handler in between is
    over once one answer more than there are candidates has arrived: its
    setupAndStart has returned if six candidates or more have five clues or
    more, and has thrown a TypeError otherwise. *)
Theorem isolated_start_outcome
    (env : environment) (w : world) (runs : list status) (m : nat)
    (candidates : list jsobj) :
  api_categories env 18 (floor_scaled (Math_random env (rand_calls w)) 20000)
  = Some candidates ->
  Forall (served env) candidates ->
  1 + length candidates <= m ->
  sys_runs (isolated env m w runs) !! length runs
  = Some (Finished (if (6 <=? length (List.filter (accepted env) candidates))%nat
                    then Ok tt else Throw TypeError)).
Proof.
  intros Hcands Hserved Hm.
  destruct (isolated_start env runs w m) as [-> | [_ Hpending]].
  2: { specialize (Hpending candidates Hcands). lia. }
  unfold start_end. cbn [sys_runs]. rewrite lookup_last_run.
  rewrite start_click_unfold, Hcands.
  set (w0 := World [] (Page [] [] false true "Loading") (member_showing w)
                   (S (rand_calls w))).
  destruct (Nat.leb_spec 6 (length (List.filter (accepted env) candidates)))
    as [Hsix|Hsix].
  - pose proof (acquire_enough env candidates w0 Hserved) as Hok.
    destruct (acquire env candidates w0) as [r w1]. simpl in Hok.
    rewrite Hok by (simpl; lia). done.
  - pose proof (acquire_exhausted env candidates w0 Hserved) as Hthrow.
    destruct (acquire env candidates w0) as [r w1]. simpl in Hthrow.
    rewrite Hthrow by (simpl; lia). done.
Qed.

Lemma isolated_start_outcome_witness :
  api_categories sparse_env 18
    (floor_scaled (Math_random sparse_env (rand_calls initial_world)) 20000)
  = Some eight_candidates /\
  Forall (served sparse_env) eight_candidates /\
  1 + length eight_candidates <= 9 /\
  sys_runs (isolated sparse_env 9 initial_world []) !! 0
  = Some (Finished (if (6 <=? length (List.filter (accepted sparse_env)
                                         eight_candidates))%nat
                    then Ok tt else Throw TypeError)).
Proof.
  assert (Hcands : api_categories sparse_env 18
                     (floor_scaled (Math_random sparse_env (rand_calls initial_world))
                        20000)
                   = Some eight_candidates) by reflexivity.
  assert (Hserved : Forall (served sparse_env) eight_candidates)
    by (repeat first [apply Forall_nil_2 | apply Forall_cons_2]; discriminate).
  assert (Hm : 1 + length eight_candidates <= 9) by (simpl; lia).
  do 3 (split; [assumption|]).
  exact (isolated_start_outcome sparse_env initial_world [] 9 eight_candidates
           Hcands Hserved Hm).
Defined.
